(** * OCRDemo: the projection-based line segmenter and the TrOCR page loop

    A shallow embedding of [app/line_segmenter.py], of
    [TrOCREngine.ocr_pages] / [TrOCREngine._recognize_line] from
    [app/trocr_engine.py], of [EasyOcrEngine.ocr_pages] from
    [app/ocr_engines.py] and of [upscale] from [app/main.py], with the
    properties of the specification stated and proved over it.

    Conventions.
    - Python integers are [Z]; the row index of [enumerate] is a [Z].
    - An exception is a value of [exn]; code that may raise returns a
      [result].
    - The [uint64] accumulator of [bw.sum(axis=1)] wraps modulo [2^64].
    - For a gray array with no rows or no columns [cv2.threshold] gives
      [None] as its destination, and [bw.sum] raises.
    - [projection.max() * 0.1] and [projection > thresh] are IEEE-754
      binary64 operations; they are modelled with [SpecFloat] at
      precision 53, exponent bound 1024.
    - Pillow, NumPy, OpenCV and the TrOCR model are libraries outside the
      repository.  What the code needs from them that is not fixed by
      their interface (pixel conversion, the Otsu cut, the text the model
      decodes) is a field of a class the definitions are parametric in. *)

From Stdlib Require Import ZArith List Bool Lia Sorted.
From Stdlib Require Import SpecFloat.
Import ListNotations.
Local Open Scope Z_scope.

(** ** Exceptions and the error monad *)

Inductive exn : Type :=
| ValueError_zero_size_max   (* numpy: maximum of a zero-size array *)
| ValueError_crop_box        (* Pillow: right < left or lower < upper *)
| AttributeError_None_sum.   (* [None] has no attribute [sum] *)

Inductive result (A : Type) : Type :=
| Ok (a : A)
| Raise (e : exn).
Arguments Ok {A} a.
Arguments Raise {A} e.

Definition bind {A B : Type} (m : result A) (k : A -> result B) : result B :=
  match m with
  | Ok a => k a
  | Raise e => Raise e
  end.

Notation "x <- m ;; k" := (bind m (fun x => k))
  (at level 61, m at next level, right associativity).

Fixpoint foldM {A S : Type} (f : S -> A -> result S) (l : list A) (s : S)
  : result S :=
  match l with
  | [] => Ok s
  | a :: l' => s' <- f s a ;; foldM f l' s'
  end.

Definition result_map {A B : Type} (f : A -> B) (m : result A) : result B :=
  x <- m ;; Ok (f x).

(** [enumerate(xs, start)] *)
Fixpoint enumerate {A : Type} (start : Z) (l : list A) : list (Z * A) :=
  match l with
  | [] => []
  | a :: l' => (start, a) :: enumerate (start + 1) l'
  end.

Definition len {A : Type} (l : list A) : Z := Z.of_nat (length l).

(** ** binary64 *)

Module F64.
Definition prec : Z := 53.
Definition emax : Z := 1024.

(** Conversion of a non-negative integer (a [uint64] here), rounding to
    nearest even. *)
Definition of_Z (n : Z) : spec_float := binary_normalize prec emax n 0 false.

(** The double nearest to one tenth: [0x1.999999999999ap-4]. *)
Definition tenth : spec_float := S754_finite false 7205759403792794 (-56).

Definition mul : spec_float -> spec_float -> spec_float := SFmul prec emax.

(** [x > y] *)
Definition gtb (x y : spec_float) : bool := SFltb y x.
End F64.

(** ** Images *)

(** Pillow's mode strings, as far as the code tells them apart. *)
Inductive Mode : Type :=
| L
| RGB
| OtherMode (tag : nat).

Definition Mode_eqb (a b : Mode) : bool :=
  match a, b with
  | L, L => true
  | RGB, RGB => true
  | OtherMode s, OtherMode t => Nat.eqb s t
  | _, _ => false
  end.

Definition BBox : Type := (Z * Z * Z * Z)%type.   (* (x1, y1, x2, y2) *)

(** What the segmenter takes from Pillow, NumPy and OpenCV. *)
Class ImagingLib : Type := {
  Pixel : Type;
  (** The fill of the part of a crop box that lies outside the image. *)
  blank : Mode -> Pixel;
  (** [Image.convert]: the value of one pixel in the target mode. *)
  convert_pixel : Mode -> Mode -> Pixel -> Pixel;
  (** [np.array] of a mode-[L] image: the 8-bit value of one pixel. *)
  gray_level : Pixel -> Z;
  (** The cut chosen by [cv2.THRESH_OTSU] for a gray array. *)
  otsu : list (list Z) -> Z
}.

Section Imaging.

Context {lib : ImagingLib}.

Record Image : Type := mkImage {
  mode : Mode;
  width : Z;
  rows : list (list Pixel)
}.

Definition height (img : Image) : Z := len (rows img).

(** The representation invariant of an image: every row holds [width]
    pixels. *)
Definition wf_image (img : Image) : Prop :=
  Forall (fun r => len r = width img) (rows img).

(** [img.convert(m)] *)
Definition convert (m : Mode) (img : Image) : Image :=
  {| mode := m;
     width := width img;
     rows := map (map (convert_pixel (mode img) m)) (rows img) |}.

(** Half-open integer range [lo, lo + n). *)
Fixpoint zrange (lo : Z) (n : nat) : list Z :=
  match n with
  | O => []
  | S n' => lo :: zrange (lo + 1) n'
  end.

Definition nth_Z {A : Type} (l : list A) (i : Z) : option A :=
  if i <? 0 then None else nth_error l (Z.to_nat i).

Definition crop_row (m : Mode) (x1 x2 : Z) (r : list Pixel) : list Pixel :=
  map (fun x => match nth_Z r x with Some p => p | None => blank m end)
      (zrange x1 (Z.to_nat (x2 - x1))).

(** [img.crop((x1, y1, x2, y2))]: a new image of size
    [(x2 - x1, y2 - y1)]; what lies outside the source is filled. *)
Definition crop (img : Image) (box : BBox) : result Image :=
  let '(x1, y1, x2, y2) := box in
  if x2 <? x1 then Raise ValueError_crop_box
  else if y2 <? y1 then Raise ValueError_crop_box
  else
    Ok {| mode := mode img;
          width := x2 - x1;
          rows := map (fun y => crop_row (mode img) x1 x2
                                  (match nth_Z (rows img) y with
                                   | Some r => r
                                   | None => []
                                   end))
                      (zrange y1 (Z.to_nat (y2 - y1))) |}.

(** ** [line_segmenter.py] *)

Record LineImage : Type := mkLineImage {
  image : Image;
  bbox : BBox
}.

(** [gray = np.array(page.convert("L"))] *)
Definition gray (page : Image) : list (list Z) :=
  map (map gray_level) (rows (convert L page)).

(** [cv2.threshold(gray, 0, 255, THRESH_BINARY_INV + THRESH_OTSU)]:
    255 where the gray value is at most the cut, 0 elsewhere. *)
Definition threshold_binary_inv (t : Z) (g : list (list Z)) : list (list Z) :=
  map (map (fun v => if v >? t then 0 else 255)) g.

(** An array of shape [(H, W)] with [H = 0] or [W = 0]. *)
Definition array_empty (g : list (list Z)) : bool :=
  match g with
  | [] => true
  | [] :: _ => true
  | (_ :: _) :: _ => false
  end.

(** [_, bw = cv2.threshold(gray, ...)]: for an empty array OpenCV makes no
    destination, and [bw] is [None]. *)
Definition bw_of (g : list (list Z)) : option (list (list Z)) :=
  if array_empty g then None else Some (threshold_binary_inv (otsu g) g).

Definition bw (page : Image) : option (list (list Z)) := bw_of (gray page).

(** [sum] of one row of [uint8] values in a [uint64] accumulator. *)
Definition sum_u64 (r : list Z) : Z :=
  fold_left (fun acc v => (acc + v) mod 2 ^ 64) r 0.

(** [bw.sum(axis=1)]; on [None] the attribute lookup raises. *)
Definition sum_axis1 (m : option (list (list Z))) : result (list Z) :=
  match m with
  | None => Raise AttributeError_None_sum
  | Some mask => Ok (map sum_u64 mask)
  end.

(** [projection = bw.sum(axis=1)] *)
Definition projection_of (g : list (list Z)) : result (list Z) :=
  sum_axis1 (bw_of g).

Definition projection (page : Image) : result (list Z) :=
  projection_of (gray page).

(** [a.max()] *)
Definition array_max (a : list Z) : result Z :=
  match a with
  | [] => Raise ValueError_zero_size_max
  | x :: a' => Ok (fold_left Z.max a' x)
  end.

(** [thresh = projection.max() * 0.1] *)
Definition thresh_of (proj : list Z) : result spec_float :=
  m <- array_max proj ;; Ok (F64.mul (F64.of_Z m) F64.tenth).

Definition thresh (page : Image) : result spec_float :=
  proj <- projection page ;; thresh_of proj.

(** [is_text_row = projection > thresh] *)
Definition flags_of (proj : list Z) : result (list bool) :=
  t <- thresh_of proj ;;
  Ok (map (fun p => F64.gtb (F64.of_Z p) t) proj).

Definition is_text_row (page : Image) : result (list bool) :=
  proj <- projection page ;; flags_of proj.

(** The variables of the loop. *)
Record ScanState : Type := mkScan {
  lines : list LineImage;
  in_line : bool;
  start_row : Z
}.

Definition pad : Z := 3.

(** The two statements that build a region and append it. *)
Definition emit (page : Image) (ls : list LineImage) (y1 y2 : Z)
  : result (list LineImage) :=
  line_img <- crop page (0, y1, width page, y2) ;;
  Ok (ls ++ [ {| image := line_img; bbox := (0, y1, width page, y2) |} ]).

(** One iteration of [for i, flag in enumerate(is_text_row)]. *)
Definition scan_step (page : Image) (st : ScanState) (x : Z * bool)
  : result ScanState :=
  let '(i, flag) := x in
  if flag && negb (in_line st) then
    Ok {| lines := lines st; in_line := true; start_row := i |}
  else if negb flag && in_line st then
    let end_row := i in
    let y1 := Z.max 0 (start_row st - pad) in
    let y2 := Z.min (len (gray page)) (end_row + pad) in
    ls <- emit page (lines st) y1 y2 ;;
    Ok {| lines := ls; in_line := false; start_row := start_row st |}
  else Ok st.

Definition scan_init : ScanState :=
  {| lines := []; in_line := false; start_row := 0 |}.

(** The statements after the loop. *)
Definition finish (page : Image) (st : ScanState) : result (list LineImage) :=
  if in_line st then
    let y1 := Z.max 0 (start_row st - pad) in
    let y2 := len (gray page) in
    emit page (lines st) y1 y2
  else Ok (lines st).

(** The loop and the tail, for a given flag sequence. *)
Definition scan_flags (page : Image) (flags : list bool)
  : result (list LineImage) :=
  st <- foldM (scan_step page) (enumerate 0 flags) scan_init ;;
  finish page st.

Definition segment_lines (page : Image) : result (list LineImage) :=
  flags <- is_text_row page ;;
  scan_flags page flags.

End Imaging.

(** ** [trocr_engine.py] *)

(** A Python [str]: a sequence of Unicode code points. *)
Definition pystr : Type := list N.

(** [str.isspace] on one code point. *)
Definition isspace (c : N) : bool :=
  (((9 <=? c) && (c <=? 13)) || ((28 <=? c) && (c <=? 32))
   || (c =? 133) || (c =? 160) || (c =? 5760)
   || ((8192 <=? c) && (c <=? 8202))
   || (c =? 8232) || (c =? 8233) || (c =? 8239) || (c =? 8287)
   || (c =? 12288))%N.

Fixpoint lstrip (s : pystr) : pystr :=
  match s with
  | [] => []
  | c :: s' => if isspace c then lstrip s' else s
  end.

Definition rstrip (s : pystr) : pystr := rev (lstrip (rev s)).

(** [s.strip()] *)
Definition strip (s : pystr) : pystr := rstrip (lstrip s).

(** The truth value of a [str]. *)
Definition truthy (s : pystr) : bool :=
  match s with
  | [] => false
  | _ :: _ => true
  end.

(** The values of the result dicts, keyed as in the source. *)
Record BBoxDict : Type := mkBBoxDict {
  k_x1 : Z;
  k_y1 : Z;
  k_x2 : Z;
  k_y2 : Z
}.

Record LineDict : Type := mkLineDict {
  k_bbox : BBoxDict;
  k_text : pystr
}.

Record PageDict : Type := mkPageDict {
  k_page : Z;
  k_lines : list LineDict
}.

Section Engine.

Context {lib : ImagingLib}.

(** The processor, [model.generate] and [batch_decode(...)[0]] of the
    loaded TrOCR model: the text decoded for one image. *)
Variable decode : Image -> pystr.

(** The image [_recognize_line] hands to the processor. *)
Definition ensure_rgb (img : Image) : Image :=
  if negb (Mode_eqb (mode img) RGB) then convert RGB img else img.

Definition _recognize_line (img : Image) : pystr :=
  let img := ensure_rgb img in
  let text := decode img in
  strip text.

(** The body of [for line in line_imgs]. *)
Definition line_step (line_results : list LineDict) (line : LineImage)
  : list LineDict :=
  let text := _recognize_line (image line) in
  if negb (truthy text) then line_results
  else
    let '(x1, y1, x2, y2) := bbox line in
    line_results ++
      [ {| k_bbox := {| k_x1 := x1; k_y1 := y1; k_x2 := x2; k_y2 := y2 |};
           k_text := text |} ].

(** The body of [for page_index, page in enumerate(pages, start=1)]. *)
Definition page_step (out : list PageDict) (x : Z * Image)
  : result (list PageDict) :=
  let '(page_index, page) := x in
  line_imgs <- segment_lines page ;;
  let line_results := fold_left line_step line_imgs [] in
  Ok (out ++ [ {| k_page := page_index; k_lines := line_results |} ]).

Definition ocr_pages (pages : list Image) : result (list PageDict) :=
  foldM page_step (enumerate 1 pages) [].

(** A segmented line is kept when its recognized text is not empty. *)
Definition kept (line : LineImage) : bool :=
  truthy (_recognize_line (image line)).

(** The box and the text of a segmented line. *)
Definition boxed_text (line : LineImage) : BBox * pystr :=
  (bbox line, _recognize_line (image line)).

(** The box and the text of an output line record. *)
Definition record_boxed_text (d : LineDict) : BBox * pystr :=
  ((k_x1 (k_bbox d), k_y1 (k_bbox d), k_x2 (k_bbox d), k_y2 (k_bbox d)),
   k_text d).

(** The record appended for a kept line. *)
Definition line_dict (line : LineImage) : LineDict :=
  let '(x1, y1, x2, y2) := bbox line in
  {| k_bbox := {| k_x1 := x1; k_y1 := y1; k_x2 := x2; k_y2 := y2 |};
     k_text := _recognize_line (image line) |}.

(** The dict appended for a page numbered [i] with regions [ls]. *)
Definition page_dict (x : Z * list LineImage) : PageDict :=
  {| k_page := fst x; k_lines := map line_dict (filter kept (snd x)) |}.

End Engine.

(** ** The segmenter over an object store

    Pillow images are objects: [convert] and [crop] allocate a new image
    and return a reference to it, and the caller keeps its reference to
    the page.  This second presentation of [segment_lines] threads the
    store through every call, so that what the function does to the
    objects it was given can be stated. *)

Section ObjectStore.

Context {lib : ImagingLib}.

Definition addr : Type := nat.

Record Heap : Type := mkHeap {
  next : addr;               (* the first address not yet allocated *)
  obj : addr -> Image
}.

Definition M (A : Type) : Type := Heap -> result A * Heap.

Definition ret {A : Type} (a : A) : M A := fun h => (Ok a, h).

Definition lift {A : Type} (r : result A) : M A := fun h => (r, h).

Definition bindM {A B : Type} (m : M A) (k : A -> M B) : M B :=
  fun h =>
    match m h with
    | (Ok a, h') => k a h'
    | (Raise e, h') => (Raise e, h')
    end.

Definition new (img : Image) : M addr :=
  fun h =>
    (Ok (next h),
     {| next := S (next h);
        obj := fun a => if Nat.eqb a (next h) then img else obj h a |}).

Definition get (a : addr) : M Image := fun h => (Ok (obj h a), h).

Fixpoint foldM_st {A S : Type} (f : S -> A -> M S) (l : list A) (s : S)
  : M S :=
  match l with
  | [] => ret s
  | a :: l' => bindM (f s a) (foldM_st f l')
  end.

(** [LineImage], holding a reference to its crop. *)
Record LineObj : Type := mkLineObj {
  image_at : addr;
  bbox_of : BBox
}.

Record ScanState_st : Type := mkScan_st {
  lines_st : list LineObj;
  in_line_st : bool;
  start_row_st : Z
}.

Definition convert_st (m : Mode) (a : addr) : M addr :=
  bindM (get a) (fun img => new (convert m img)).

Definition crop_st (a : addr) (box : BBox) : M addr :=
  bindM (get a) (fun img =>
  bindM (lift (crop img box)) (fun c => new c)).

Definition width_st (a : addr) : M Z :=
  bindM (get a) (fun img => ret (width img)).

Definition emit_st (page : addr) (ls : list LineObj) (y1 y2 : Z)
  : M (list LineObj) :=
  bindM (width_st page) (fun w =>
  bindM (crop_st page (0, y1, w, y2)) (fun line_img =>
  bindM (width_st page) (fun w' =>
  ret (ls ++ [ {| image_at := line_img; bbox_of := (0, y1, w', y2) |} ])))).

Definition scan_step_st (page : addr) (g : list (list Z))
    (st : ScanState_st) (x : Z * bool) : M ScanState_st :=
  let '(i, flag) := x in
  if flag && negb (in_line_st st) then
    ret {| lines_st := lines_st st; in_line_st := true; start_row_st := i |}
  else if negb flag && in_line_st st then
    let end_row := i in
    let y1 := Z.max 0 (start_row_st st - pad) in
    let y2 := Z.min (len g) (end_row + pad) in
    bindM (emit_st page (lines_st st) y1 y2) (fun ls =>
    ret {| lines_st := ls; in_line_st := false;
           start_row_st := start_row_st st |})
  else ret st.

Definition finish_st (page : addr) (g : list (list Z)) (st : ScanState_st)
  : M (list LineObj) :=
  if in_line_st st then
    let y1 := Z.max 0 (start_row_st st - pad) in
    let y2 := len g in
    emit_st page (lines_st st) y1 y2
  else ret (lines_st st).

Definition segment_lines_st (page : addr) : M (list LineObj) :=
  bindM (convert_st L page) (fun gray_img =>
  bindM (get gray_img) (fun gi =>
  let g := map (map gray_level) (rows gi) in
  bindM (lift (proj <- projection_of g ;; flags_of proj)) (fun flags =>
  bindM (foldM_st (scan_step_st page g) (enumerate 0 flags)
           {| lines_st := []; in_line_st := false; start_row_st := 0 |})
        (fun st => finish_st page g st)))).

(** The region a [LineObj] stands for in a store. *)
Definition deref (h : Heap) (lo : LineObj) : LineImage :=
  {| image := obj h (image_at lo); bbox := bbox_of lo |}.

(** The loop state a store-level loop state stands for. *)
Definition abs_state (h : Heap) (st : ScanState_st) : ScanState :=
  {| lines := map (deref h) (lines_st st);
     in_line := in_line_st st;
     start_row := start_row_st st |}.

(** [h'] holds every object of [h], unchanged, and possibly new ones. *)
Definition extends (h h' : Heap) : Prop :=
  (next h <= next h')%nat /\
  forall a, (a < next h)%nat -> obj h' a = obj h a.

(** The crops of these regions are objects of the store. *)
Definition allocated (h : Heap) (los : list LineObj) : Prop :=
  Forall (fun lo => (image_at lo < next h)%nat) los.

(** A run from store [h] ends as the value-level computation does: with
    the same exception, or with references to the same regions; and it
    only adds objects to the store. *)
Definition sim_lines (h : Heap) (pure : result (list LineImage))
    (run : result (list LineObj) * Heap) : Prop :=
  extends h (snd run) /\
  match pure, fst run with
  | Ok ls, Ok los =>
      allocated (snd run) los /\ map (deref (snd run)) los = ls
  | Raise e, Raise e' => e = e'
  | _, _ => False
  end.

Definition sim_state (h : Heap) (pure : result ScanState)
    (run : result ScanState_st * Heap) : Prop :=
  extends h (snd run) /\
  match pure, fst run with
  | Ok st, Ok sst =>
      allocated (snd run) (lines_st sst) /\ abs_state (snd run) sst = st
  | Raise e, Raise e' => e = e'
  | _, _ => False
  end.

End ObjectStore.

(** ** The rows behind each region

    The loop of [segment_lines] with every region replaced by the pair
    [(start_row, end_row)] it is computed from: the unpadded interval of
    flagged rows.  The region of the tail is built from
    [(start_row, H)]. *)

Record Trace : Type := mkTrace {
  runs : list (Z * Z);
  t_in_line : bool;
  t_start_row : Z
}.

Definition trace_step (tr : Trace) (x : Z * bool) : Trace :=
  let '(i, flag) := x in
  if flag && negb (t_in_line tr) then
    {| runs := runs tr; t_in_line := true; t_start_row := i |}
  else if negb flag && t_in_line tr then
    {| runs := runs tr ++ [(t_start_row tr, i)];
       t_in_line := false; t_start_row := t_start_row tr |}
  else tr.

Definition trace_init : Trace :=
  {| runs := []; t_in_line := false; t_start_row := 0 |}.

Definition trace_loop (flags : list bool) : Trace :=
  fold_left trace_step (enumerate 0 flags) trace_init.

Definition trace_finish (H : Z) (tr : Trace) : list (Z * Z) :=
  if t_in_line tr then runs tr ++ [(t_start_row tr, H)] else runs tr.

Definition detections (flags : list bool) : list (Z * Z) :=
  trace_finish (len flags) (trace_loop flags).

(** Consecutive (indeed any two) intervals are apart: the earlier one
    ends strictly before the later one starts. *)
Definition apart (a b : Z * Z) : Prop := snd a < fst b.


(** What holds of the trace before row [i] is read: the intervals found
    so far are apart, each is a non-empty range of rows above [i], and an
    open run started above [i], below every interval found so far. *)
Definition trace_inv (i : Z) (tr : Trace) : Prop :=
  StronglySorted apart (runs tr) /\
  Forall (fun r => 0 <= fst r /\ fst r < snd r /\ snd r < i) (runs tr) /\
  (t_in_line tr = true ->
   0 <= t_start_row tr /\ t_start_row tr < i /\
   Forall (fun r => snd r < t_start_row tr) (runs tr)).

Section Regions.

Context {lib : ImagingLib}.

(** Rows [y1, y2) of a page, at full width. *)
Definition page_rows (page : Image) (y1 y2 : Z) : Image :=
  {| mode := mode page;
     width := width page;
     rows := firstn (Z.to_nat (y2 - y1)) (skipn (Z.to_nat y1) (rows page)) |}.

(** The padded box of the rows [start_row, end_row). *)
Definition padded (page : Image) (r : Z * Z) : BBox :=
  (0, Z.max 0 (fst r - pad), width page, Z.min (height page) (snd r + pad)).

Definition region (page : Image) (r : Z * Z) : LineImage :=
  let '(_, y1, _, y2) := padded page r in
  {| image := page_rows page y1 y2; bbox := padded page r |}.

(** The loop state that stands for a trace. *)
Definition st_of (page : Image) (tr : Trace) : ScanState :=
  {| lines := map (region page) (runs tr);
     in_line := t_in_line tr;
     start_row := t_start_row tr |}.

Definition y1_of (l : LineImage) : Z := let '(_, y1, _, _) := bbox l in y1.

(** Regions in strictly increasing order of [y1]. *)
Definition strictly_increasing_y1 (ls : list LineImage) : Prop :=
  StronglySorted (fun a b => y1_of a < y1_of b) ls.

End Regions.

(** ** A concrete imaging library and pages to run the code on

    Pixels are gray levels, conversion between modes keeps the level, and
    the cut is 0: ink is level 0 and every lighter level is paper.  On the
    pages below any cut under their lightest paper level gives the same
    mask. *)

Definition gray_lib : ImagingLib :=
  {| Pixel := Z;
     blank := fun _ => 0;
     convert_pixel := fun _ _ p => p;
     gray_level := fun p => p;
     otsu := fun _ => 0 |}.

Definition gray_page (rs : list (list Z)) (w : Z) : @Image gray_lib :=
  @mkImage gray_lib L w rs.

(** Ink, blank, ink, blank: two one-row lines. *)
Definition page_two_lines : @Image gray_lib :=
  gray_page [[0; 0]; [255; 255]; [0; 0]; [255; 255]] 2.

(** Four blank rows, a band of two ink rows, four blank rows. *)
Definition page_band : @Image gray_lib :=
  gray_page (repeat [255; 255] 4 ++ repeat [0; 0] 2 ++ repeat [255; 255] 4) 2.

(** Ink on the last row. *)
Definition page_tail : @Image gray_lib :=
  gray_page [[255; 255]; [255; 255]; [0; 0]] 2.

(** No ink at all. *)
Definition page_blank : @Image gray_lib :=
  gray_page [[255; 255]; [255; 255]] 2.

(** The same mask as [page_two_lines], from lighter paper. *)
Definition page_two_lines_dim : @Image gray_lib :=
  gray_page [[0; 0]; [200; 180]; [0; 0]; [190; 255]] 2.

(** A model that decodes the letters "hi" with a trailing newline. *)
Definition decode_hi : @Image gray_lib -> pystr :=
  fun _ => [104; 105; 10]%N.

(** A model that decodes only a space. *)
Definition decode_space : @Image gray_lib -> pystr :=
  fun _ => [32]%N.

(** A store holding one page. *)
Definition heap_one (page : @Image gray_lib) : @Heap gray_lib :=
  @mkHeap gray_lib 1%nat (fun _ => page).

(** ** Maximal runs of flagged rows *)

(** Rows [s, e) are all flagged. *)
Definition flagged (flags : list bool) (s e : Z) : Prop :=
  forall j, s <= j < e -> nth_Z flags j = Some true.

(** No flagged row precedes row [s]. *)
Definition run_start (flags : list bool) (s : Z) : Prop :=
  s = 0 \/ nth_Z flags (s - 1) = Some false.

(** No flagged row follows row [e - 1]. *)
Definition run_end (flags : list bool) (e : Z) : Prop :=
  e = len flags \/ nth_Z flags e = Some false.

(** [s, e) is a maximal run of flagged rows. *)
Definition maximal_run (flags : list bool) (r : Z * Z) : Prop :=
  0 <= fst r /\ fst r < snd r /\ snd r <= len flags /\
  flagged flags (fst r) (snd r) /\
  run_start flags (fst r) /\ run_end flags (snd r).

(** What holds of the trace before row [i] is read, in terms of the
    flags above row [i]: the intervals found are maximal runs closed by
    a blank row, an open run is flagged from its start on, outside a run
    the last row read is blank, and every flagged row above [i] is in an
    interval or in the open run. *)
Definition run_inv (flags : list bool) (i : Z) (tr : Trace) : Prop :=
  Forall (fun r => flagged flags (fst r) (snd r) /\
                   run_start flags (fst r) /\
                   nth_Z flags (snd r) = Some false) (runs tr) /\
  (t_in_line tr = true ->
   flagged flags (t_start_row tr) i /\ run_start flags (t_start_row tr)) /\
  (t_in_line tr = false -> i = 0 \/ nth_Z flags (i - 1) = Some false) /\
  (forall j, 0 <= j < i -> nth_Z flags j = Some true ->
             (exists r, In r (runs tr) /\ fst r <= j < snd r) \/
             (t_in_line tr = true /\ t_start_row tr <= j)).

(** ** Measures of a region and of a row *)

Definition y2_of `{lib : ImagingLib} (l : LineImage) : Z :=
  let '(_, _, _, y2) := bbox l in y2.

(** The number of ink pixels of a gray row under cut [t]: those the
    inverted binary threshold sets to 255. *)
Definition ink_count (t : Z) (grow : list Z) : Z :=
  len (filter (fun v => negb (v >? t)) grow).

(** ** [ocr_engines.py]: the page loop of [EasyOcrEngine] *)

(** [sep.join(l)] *)
Fixpoint join (sep : pystr) (l : list pystr) : pystr :=
  match l with
  | [] => []
  | x :: l' =>
      match l' with
      | [] => x
      | _ :: _ => x ++ sep ++ join sep l'
      end
  end.

(** The line feed, the separator of the page text. *)
Definition newline : N := 10%N.

(** [s.split(sep)] for the one-character separator [newline]; used to
    state what [join] keeps. *)
Fixpoint split_newline (s : pystr) : list pystr :=
  match s with
  | [] => [[]]
  | c :: s' =>
      if (c =? newline)%N then [] :: split_newline s'
      else
        match split_newline s' with
        | [] => [[c]]
        | w :: ws => (c :: w) :: ws
        end
  end.

(** The values of the result dicts of the page-level engine. *)
Record TextPageDict : Type := mkTextPageDict {
  t_page : Z;
  t_text : pystr
}.

Module EasyOcrEngine.
Section Reader.

Context {lib : ImagingLib}.
Variables Box Conf : Type.

(** [self._reader.readtext(np.array(img), detail=1, ...)]: the boxes,
    texts and confidences EasyOCR finds on a page; the reader is taken to
    return. *)
Variable readtext : Image -> list (Box * pystr * Conf).

(** The body of [for idx, img in enumerate(images, start=1)]. *)
Definition page_step (results : list TextPageDict) (x : Z * Image)
  : list TextPageDict :=
  let '(idx, img) := x in
  let ocr_result := readtext img in
  let lines := map (fun d => let '(_bbox, text, _conf) := d in text)
                   ocr_result in
  let page_text := join [newline] lines in
  results ++ [ {| t_page := idx; t_text := page_text |} ].

Definition ocr_pages (images : list Image) : list TextPageDict :=
  fold_left page_step (enumerate 1 images) [].

(** The texts found on a page. *)
Definition texts (img : Image) : list pystr :=
  map (fun d => let '(_bbox, text, _conf) := d in text) (readtext img).

End Reader.
End EasyOcrEngine.

(** A reader that finds two words on every page, and one that finds
    nothing. *)
Definition read_two_words : @Image gray_lib -> list (unit * pystr * unit) :=
  fun _ => [(tt, [104; 105]%N, tt); (tt, [121; 111; 117]%N, tt)].

Definition read_nothing : @Image gray_lib -> list (unit * pystr * unit) :=
  fun _ => [].

(** ** [main.py]: [upscale] *)

(** The exceptions of the arithmetic and of [Image.resize]. *)
Inductive pyexn : Type :=
| ZeroDivisionError
| OverflowError
| ValueError
| MemoryError.

Inductive outcome (A : Type) : Type :=
| Returns (a : A)
| Raises (e : pyexn).
Arguments Returns {A} a.
Arguments Raises {A} e.

Definition and_then {A B : Type} (m : outcome A) (k : A -> outcome B)
  : outcome B :=
  match m with
  | Returns a => k a
  | Raises e => Raises e
  end.

Module PyFloat.

(** An [int] as an exact quotient operand. *)
Definition operand (a : Z) : spec_float :=
  match a with
  | Z0 => S754_zero false
  | Zpos p => S754_finite false p 0
  | Zneg p => S754_finite true p 0
  end.

(** [a / b] on two [int]s: the quotient, correctly rounded. *)
Definition truediv (a b : Z) : outcome spec_float :=
  if b =? 0 then Raises ZeroDivisionError
  else
    match SFdiv F64.prec F64.emax (operand a) (operand b) with
    | S754_infinity _ => Raises OverflowError
    | q => Returns q
    end.

(** [float(a)] for an [int]. *)
Definition of_int (a : Z) : outcome spec_float :=
  match F64.of_Z a with
  | S754_infinity _ => Raises OverflowError
  | x => Returns x
  end.

(** [a * x] for an [int] and a [float]. *)
Definition int_mul (a : Z) (x : spec_float) : outcome spec_float :=
  and_then (of_int a) (fun fa => Returns (F64.mul fa x)).

(** [int(x)]: truncation towards zero. *)
Definition to_int (x : spec_float) : outcome Z :=
  match x with
  | S754_zero _ => Returns 0
  | S754_infinity _ => Raises OverflowError
  | S754_nan => Raises ValueError
  | S754_finite s m e =>
      let mag := match e with
                 | Zneg k => Zpos m / 2 ^ Zpos k
                 | _ => Zpos m * 2 ^ e
                 end in
      Returns (if s then - mag else mag)
  end.

End PyFloat.

(** What [upscale] takes from Pillow: the value of the pixel at column
    [x], row [y] of the image resized to a size, under [Image.BICUBIC];
    and whether its storage can hold an image of a mode and a size (the
    limits on the line size and the memory of the process). *)
Class ResampleLib {lib : ImagingLib} : Type := {
  bicubic_pixel : Image -> Z * Z -> Z -> Z -> Pixel;
  can_allocate : Mode -> Z * Z -> bool
}.

(** The largest C [int]; Pillow reads the two sizes as C [int]s. *)
Definition INT_MAX : Z := 2 ^ 31 - 1.

Definition c_int (n : Z) : bool := (- INT_MAX - 1 <=? n) && (n <=? INT_MAX).

Section Upscale.

Context {lib : ImagingLib} {rlib : ResampleLib}.

(** [img.size] *)
Definition size (img : Image) : Z * Z := (width img, height img).

(** [img.resize(size, Image.BICUBIC)]: a size outside the C [int]s, a
    size below 1 and an image that the storage cannot hold each raise. *)
Definition resize (img : Image) (sz : Z * Z) : outcome Image :=
  let '(w, h) := sz in
  if negb (c_int w && c_int h) then Raises OverflowError
  else if (w <? 1) || (h <? 1) then Raises ValueError
  else if negb (can_allocate (mode img) sz) then Raises MemoryError
  else
    Returns
      {| mode := mode img;
         width := w;
         rows := map (fun y => map (fun x => bicubic_pixel img sz x y)
                                   (zrange 0 (Z.to_nat w)))
                     (zrange 0 (Z.to_nat h)) |}.

Definition upscale (img : Image) (min_height : Z) : outcome Image :=
  let '(w, h) := size img in
  if h >=? min_height then Returns img
  else
    and_then (PyFloat.truediv min_height h) (fun scale =>
    and_then (PyFloat.int_mul w scale) (fun ws =>
    and_then (PyFloat.to_int ws) (fun w' =>
    and_then (PyFloat.int_mul h scale) (fun hs =>
    and_then (PyFloat.to_int hs) (fun h' =>
    resize img (w', h')))))).

(** The height [upscale] asks for when it resizes an image of height
    [h]. *)
Definition scaled_height (h min_height : Z) : outcome Z :=
  and_then (PyFloat.truediv min_height h) (fun scale =>
  and_then (PyFloat.int_mul h scale) PyFloat.to_int).

(** The size [upscale] asks for when it resizes an image of size
    [(w, h)]: [(int(w * scale), int(h * scale))]. *)
Definition scaled_size (w h min_height : Z) : outcome (Z * Z) :=
  and_then (PyFloat.truediv min_height h) (fun scale =>
  and_then (PyFloat.int_mul w scale) (fun ws =>
  and_then (PyFloat.to_int ws) (fun w' =>
  and_then (PyFloat.int_mul h scale) (fun hs =>
  and_then (PyFloat.to_int hs) (fun h' =>
  Returns (w', h')))))).

End Upscale.

(** Whether, for height [h], the scale to 1500 is a normal number with an
    exponent from -52 to -42 and the scaled height is 1499 or 1500. *)
Definition scale_1500_ok (h : Z) : bool :=
  match PyFloat.truediv 1500 h with
  | Returns (S754_finite false m e) =>
      (Zpos (digits2_pos m) =? 53) && (-52 <=? e) && (e <=? -42) &&
      match and_then (PyFloat.int_mul h (S754_finite false m e))
                     PyFloat.to_int with
      | Returns h' => (h' =? 1499) || (h' =? 1500)
      | Raises _ => false
      end
  | _ => false
  end.

(** A resampling that repeats the nearest pixel above and to the left,
    in a storage that holds images of up to [2^28] pixels. *)
Definition nearest_lib : @ResampleLib gray_lib :=
  {| bicubic_pixel := fun (img : @Image gray_lib) sz x y =>
       match nth_Z (rows img) (y * height img / snd sz) with
       | Some r =>
           match nth_Z r (x * width img / fst sz) with
           | Some p => p
           | None => @blank gray_lib (mode img)
           end
       | None => @blank gray_lib (mode img)
       end;
     can_allocate := fun _ sz => fst sz * snd sz <=? 2 ^ 28 |}.

(** * Properties *)

(** ** Lists, ranges and the error monad *)

Lemma Mode_eqb_eq (a b : Mode) : Mode_eqb a b = true <-> a = b.
Proof.
  destruct a, b; simpl; split; intro E; try congruence; try reflexivity.
  - apply Nat.eqb_eq in E. congruence.
  - injection E as ->. apply Nat.eqb_refl.
Qed.

Lemma len_nonneg {A : Type} (l : list A) : 0 <= len l.
Proof. unfold len. lia. Qed.

Lemma len_cons {A : Type} (a : A) (l : list A) : len (a :: l) = len l + 1.
Proof. unfold len. simpl length. lia. Qed.

Lemma len_app {A : Type} (l1 l2 : list A) : len (l1 ++ l2) = len l1 + len l2.
Proof. unfold len. rewrite length_app. lia. Qed.

Lemma len_map {A B : Type} (f : A -> B) (l : list A) : len (map f l) = len l.
Proof. unfold len. now rewrite length_map. Qed.


Lemma enumerate_app {A : Type} (l1 l2 : list A) (i : Z) :
  enumerate i (l1 ++ l2) = enumerate i l1 ++ enumerate (i + len l1) l2.
Proof.
  revert i. induction l1 as [|a l1 IH]; intro i; simpl.
  - unfold len. simpl. now rewrite Z.add_0_r.
  - rewrite IH, len_cons. do 3 f_equal. lia.
Qed.

Lemma foldM_app {A S : Type} (f : S -> A -> result S) (l1 l2 : list A) (s : S) :
  foldM f (l1 ++ l2) s = (s' <- foldM f l1 s ;; foldM f l2 s').
Proof.
  revert s. induction l1 as [|a l1 IH]; intro s; simpl; [reflexivity|].
  destruct (f s a); simpl; [apply IH | reflexivity].
Qed.

Lemma nth_Z_middle {A : Type} (l1 l2 : list A) (a : A) :
  nth_Z (l1 ++ a :: l2) (len l1) = Some a.
Proof.
  unfold nth_Z, len.
  destruct (Z.ltb_spec (Z.of_nat (length l1)) 0) as [E|_]; [lia|].
  rewrite Nat2Z.id, nth_error_app2, Nat.sub_diag by lia. reflexivity.
Qed.

(** Reading a range of positions that lies inside a list gives that part
    of the list. *)
Lemma map_zrange_nth {A B : Type} (f : option A -> B) (n : nat) :
  forall l1 l2 : list A,
    (n <= length l2)%nat ->
    map (fun y => f (nth_Z (l1 ++ l2) y)) (zrange (len l1) n)
    = map (fun a => f (Some a)) (firstn n l2).
Proof.
  induction n as [|n IH]; intros l1 l2 Hn; [reflexivity|].
  destruct l2 as [|a l2]; [simpl in Hn; lia|].
  simpl. rewrite nth_Z_middle. f_equal.
  specialize (IH (l1 ++ [a]) l2).
  rewrite <- app_assoc, len_app in IH. simpl in IH.
  replace (len [a]) with 1 in IH by reflexivity.
  apply IH. simpl in Hn. lia.
Qed.

Lemma in_firstn {A : Type} (n : nat) (l : list A) (a : A) :
  In a (firstn n l) -> In a l.
Proof.
  intro H. rewrite <- (firstn_skipn n l). apply in_or_app. now left.
Qed.

Lemma in_skipn {A : Type} (n : nat) (l : list A) (a : A) :
  In a (skipn n l) -> In a l.
Proof.
  intro H. rewrite <- (firstn_skipn n l). apply in_or_app. now right.
Qed.

Section CropFacts.

Context {lib : ImagingLib}.

Lemma crop_row_full (m : Mode) (r : list Pixel) (w : Z) :
  len r = w -> crop_row m 0 w r = r.
Proof.
  intros <-. unfold crop_row.
  rewrite Z.sub_0_r. unfold len at 1. rewrite Nat2Z.id.
  pose proof (map_zrange_nth
                (fun o : option Pixel =>
                   match o with Some p => p | None => blank m end)
                (length r) [] r (Nat.le_refl _)) as E.
  simpl app in E. change (len (@nil Pixel)) with 0 in E.
  rewrite E, firstn_all. apply map_id.
Qed.

Lemma height_gray (page : Image) : len (gray page) = height page.
Proof. unfold gray, convert, height. simpl. now rewrite !len_map. Qed.

(** A well-formed page with at least one row has a width that is not
    negative. *)
Lemma wf_width_nonneg (page : Image) :
  wf_image page -> 0 < height page -> 0 <= width page.
Proof.
  unfold wf_image, height. intros Hwf Hh.
  destruct (rows page) as [|r rs]; [unfold len in Hh; simpl in Hh; lia|].
  inversion Hwf as [|? ? Hr _]; subst. rewrite <- Hr. apply len_nonneg.
Qed.

(** Cropping a box of full width that lies inside the page gives the
    rows of the page in that range. *)
Lemma crop_page_rows (page : Image) (y1 y2 : Z) :
  wf_image page -> 0 <= width page ->
  0 <= y1 -> y1 <= y2 -> y2 <= height page ->
  crop page (0, y1, width page, y2) = Ok (page_rows page y1 y2).
Proof.
  intros Hwf Hw H1 H12 H2. unfold crop, page_rows.
  destruct (Z.ltb_spec (width page) 0) as [E|_]; [lia|].
  destruct (Z.ltb_spec y2 y1) as [E|_]; [lia|].
  f_equal. f_equal; [apply Z.sub_0_r|].
  set (n := Z.to_nat (y2 - y1)).
  set (k := Z.to_nat y1).
  assert (Hk : (k <= length (rows page))%nat)
    by (unfold height, len in H2; lia).
  assert (Hy : y1 = len (firstn k (rows page))).
  { unfold len. rewrite length_firstn, Nat.min_l by exact Hk. lia. }
  assert (Hn : (n <= length (skipn k (rows page)))%nat).
  { rewrite length_skipn. unfold height, len in H2. lia. }
  pose proof (map_zrange_nth
                (fun o => crop_row (mode page) 0 (width page)
                            match o with Some r => r | None => [] end)
                n (firstn k (rows page)) (skipn k (rows page)) Hn) as E.
  cbv beta in E. rewrite firstn_skipn, <- Hy in E. rewrite E.
  rewrite <- (map_id (firstn n (skipn k (rows page)))) at 2.
  apply map_ext_in. intros r Hr. apply crop_row_full.
  apply in_firstn, in_skipn in Hr.
  unfold wf_image in Hwf. rewrite Forall_forall in Hwf. now apply Hwf.
Qed.

End CropFacts.

(** ** The trace of the loop *)

Lemma StronglySorted_snoc {A : Type} (R : A -> A -> Prop) (l : list A) (x : A) :
  StronglySorted R l -> Forall (fun a => R a x) l ->
  StronglySorted R (l ++ [x]).
Proof.
  induction l as [|a l IH]; intros Hs Hx; simpl.
  - constructor; constructor.
  - apply StronglySorted_inv in Hs. destruct Hs as [Hs Ha].
    inversion Hx as [|? ? Hax Hlx]; subst.
    constructor; [now apply IH|].
    apply Forall_app. split; [exact Ha | now constructor].
Qed.

Lemma trace_init_inv : trace_inv 0 trace_init.
Proof.
  unfold trace_inv, trace_init; simpl.
  repeat split; try constructor; discriminate.
Qed.

Lemma trace_step_inv (i : Z) (flag : bool) (tr : Trace) :
  0 <= i -> trace_inv i tr -> trace_inv (i + 1) (trace_step tr (i, flag)).
Proof.
  intros Hi (Hs & Hb & Ho). unfold trace_step, trace_inv.
  assert (Hb' : Forall (fun r => 0 <= fst r /\ fst r < snd r /\ snd r < i + 1)
                  (runs tr)).
  { eapply Forall_impl; [|exact Hb]. simpl. intros r ?. lia. }
  destruct flag, (t_in_line tr) eqn:E; simpl.
  - (* inside a run *)
    rewrite E. split; [exact Hs|]. split; [exact Hb'|]. intros _.
    destruct (Ho eq_refl) as (? & ? & ?). repeat split; auto; lia.
  - (* a run opens *)
    split; [exact Hs|]. split; [exact Hb'|]. intros _.
    repeat split; try lia.
    eapply Forall_impl; [|exact Hb]. simpl. intros r ?. lia.
  - (* a run closes *)
    destruct (Ho eq_refl) as (H0 & H1 & H2).
    split; [|split; [|discriminate]].
    + apply StronglySorted_snoc; [exact Hs|].
      eapply Forall_impl; [|exact H2]. intros r H. exact H.
    + apply Forall_app. split; [exact Hb'|].
      constructor; [simpl; lia | constructor].
  - (* between runs *)
    rewrite E. split; [exact Hs|]. split; [exact Hb'|]. discriminate.
Qed.

Lemma trace_fold_inv (flags : list bool) :
  forall (i : Z) (tr : Trace),
    0 <= i -> trace_inv i tr ->
    trace_inv (i + len flags) (fold_left trace_step (enumerate i flags) tr).
Proof.
  induction flags as [|flag flags IH]; intros i tr Hi Hinv; simpl.
  - change (len (@nil bool)) with 0. now rewrite Z.add_0_r.
  - rewrite len_cons.
    replace (i + (len flags + 1)) with ((i + 1) + len flags) by lia.
    apply IH; [lia | now apply trace_step_inv].
Qed.

Lemma trace_loop_inv (flags : list bool) :
  trace_inv (len flags) (trace_loop flags).
Proof.
  apply (trace_fold_inv flags 0 trace_init); [lia | apply trace_init_inv].
Qed.

(** The intervals of a scan are apart from one another. *)
Lemma detections_apart (flags : list bool) :
  StronglySorted apart (detections flags).
Proof.
  unfold detections, trace_finish.
  destruct (trace_loop_inv flags) as (Hs & Hb & Ho).
  destruct (t_in_line (trace_loop flags)); [|exact Hs].
  destruct (Ho eq_refl) as (_ & _ & H2).
  apply StronglySorted_snoc; [exact Hs|].
  eapply Forall_impl; [|exact H2]. intros r H. exact H.
Qed.

(** Each interval of a scan is a non-empty range of rows of the page. *)
Lemma detections_bounds (flags : list bool) :
  Forall (fun r => 0 <= fst r /\ fst r < snd r /\ snd r <= len flags)
         (detections flags).
Proof.
  unfold detections, trace_finish.
  destruct (trace_loop_inv flags) as (Hs & Hb & Ho).
  assert (Hb' : Forall (fun r => 0 <= fst r /\ fst r < snd r /\
                                 snd r <= len flags)
                  (runs (trace_loop flags))).
  { eapply Forall_impl; [|exact Hb]. simpl. intros r ?. lia. }
  destruct (t_in_line (trace_loop flags)); [|exact Hb'].
  destruct (Ho eq_refl) as (H0 & H1 & _).
  apply Forall_app. split; [exact Hb'|].
  constructor; [simpl; lia | constructor].
Qed.

(** ** The loop follows its trace *)

Section Simulation.

Context {lib : ImagingLib}.
Variable page : Image.
Hypothesis Hwf : wf_image page.

Lemma emit_region (ls : list LineImage) (s e : Z) :
  0 <= s -> s < e -> e <= height page ->
  emit page ls (Z.max 0 (s - pad)) (Z.min (height page) (e + pad))
  = Ok (ls ++ [region page (s, e)]).
Proof.
  intros H0 H1 H2. unfold emit, pad.
  rewrite crop_page_rows; try lia; try exact Hwf.
  - reflexivity.
  - apply wf_width_nonneg; [exact Hwf | lia].
Qed.

Lemma scan_step_sim (i : Z) (flag : bool) (tr : Trace) :
  0 <= i -> i < height page -> trace_inv i tr ->
  scan_step page (st_of page tr) (i, flag)
  = Ok (st_of page (trace_step tr (i, flag))).
Proof.
  intros Hi Hh (_ & _ & Ho). unfold scan_step. rewrite height_gray.
  unfold trace_step, st_of. cbv zeta. cbn [lines in_line start_row].
  destruct flag, (t_in_line tr) eqn:E;
    cbn [andb negb runs t_in_line t_start_row];
    try (rewrite ?E; reflexivity).
  destruct (Ho eq_refl) as (H0 & H1 & _).
  rewrite emit_region by lia. cbn [bind].
  now rewrite map_app.
Qed.

Lemma scan_loop_sim (flags : list bool) :
  forall (i : Z) (tr : Trace),
    0 <= i -> i + len flags <= height page -> trace_inv i tr ->
    foldM (scan_step page) (enumerate i flags) (st_of page tr)
    = Ok (st_of page (fold_left trace_step (enumerate i flags) tr)).
Proof.
  induction flags as [|flag flags IH]; intros i tr Hi Hh Hinv;
    cbn [enumerate foldM fold_left].
  - reflexivity.
  - rewrite len_cons in Hh. pose proof (len_nonneg flags).
    rewrite scan_step_sim by (auto; lia). cbn [bind].
    apply IH; [lia | lia | now apply trace_step_inv].
Qed.

Lemma finish_sim (tr : Trace) :
  trace_inv (height page) tr ->
  finish page (st_of page tr)
  = Ok (map (region page) (trace_finish (height page) tr)).
Proof.
  intros (_ & _ & Ho). unfold finish. rewrite height_gray.
  unfold trace_finish, st_of. cbv zeta. cbn [lines in_line start_row].
  destruct (t_in_line tr); [|reflexivity].
  destruct (Ho eq_refl) as (H0 & H1 & _).
  replace (height page) with (Z.min (height page) (height page + pad)) at 1
    by (unfold pad; lia).
  rewrite emit_region by lia. now rewrite map_app.
Qed.

(** A scan over as many flags as the page has rows returns the regions
    of the intervals of those flags, and raises nothing. *)
Lemma scan_flags_detections (flags : list bool) :
  len flags = height page ->
  scan_flags page flags = Ok (map (region page) (detections flags)).
Proof.
  intro Hlen. unfold scan_flags.
  change scan_init with (st_of page trace_init).
  rewrite scan_loop_sim; [|lia|lia|apply trace_init_inv]. cbn [bind].
  unfold detections. rewrite Hlen. apply finish_sim.
  rewrite <- Hlen. apply trace_loop_inv.
Qed.

Lemma flags_of_len (proj : list Z) (flags : list bool) :
  flags_of proj = Ok flags -> len flags = len proj.
Proof.
  unfold flags_of. destruct (thresh_of proj); simpl; [|discriminate].
  intro E. injection E as <-. apply len_map.
Qed.

(** The row sums are computed exactly when the gray array is not empty,
    and are then those of the inverted Otsu mask. *)
Lemma projection_inv (proj : list Z) :
  projection page = Ok proj ->
  array_empty (gray page) = false /\
  proj = map sum_u64 (threshold_binary_inv (otsu (gray page)) (gray page)).
Proof.
  unfold projection, projection_of, bw_of.
  destruct (array_empty (gray page)); cbn [sum_axis1]; [discriminate|].
  intro E. injection E as <-. auto.
Qed.

Lemma projection_ok :
  array_empty (gray page) = false ->
  projection page
  = Ok (map sum_u64 (threshold_binary_inv (otsu (gray page)) (gray page))).
Proof.
  intro E. unfold projection, projection_of, bw_of. now rewrite E.
Qed.


Lemma projection_len (proj : list Z) :
  projection page = Ok proj -> len proj = height page.
Proof.
  intro E. apply projection_inv in E as [_ ->].
  unfold threshold_binary_inv. now rewrite !len_map, height_gray.
Qed.

Lemma is_text_row_inv (flags : list bool) :
  is_text_row page = Ok flags ->
  exists proj, projection page = Ok proj /\ flags_of proj = Ok flags.
Proof.
  unfold is_text_row. destruct (projection page) as [proj|e];
    cbn [bind]; [|discriminate].
  intro E. now exists proj.
Qed.

Lemma is_text_row_len (flags : list bool) :
  is_text_row page = Ok flags -> len flags = height page.
Proof.
  intro E. apply is_text_row_inv in E as (proj & Ep & E).
  apply flags_of_len in E. rewrite E. now apply projection_len.
Qed.

(** For a well-formed page the gray array is empty exactly when the page
    has no rows or no columns. *)
Lemma array_empty_gray :
  array_empty (gray page) = true <-> height page = 0 \/ width page = 0.
Proof.
  pose proof Hwf as Hf. revert Hf.
  unfold wf_image, gray, convert, height. cbn [rows].
  destruct (rows page) as [|r rs]; intro Hf.
  - split; [now left|reflexivity].
  - apply Forall_inv in Hf. rewrite len_cons. pose proof (len_nonneg rs).
    destruct r as [|p r]; cbn [map array_empty].
    + change (len (@nil Pixel)) with 0 in Hf. split; [right; lia|reflexivity].
    + rewrite len_cons in Hf. pose proof (len_nonneg r).
      split; [discriminate|lia].
Qed.

Lemma array_nonempty_gray :
  1 <= height page -> 1 <= width page -> array_empty (gray page) = false.
Proof.
  intros Hh Hw. destruct (array_empty (gray page)) eqn:E; [|reflexivity].
  apply array_empty_gray in E. lia.
Qed.

(** [segment_lines] returns the regions of the intervals of its flag
    sequence. *)
Lemma segment_lines_detections (flags : list bool) :
  is_text_row page = Ok flags ->
  segment_lines page = Ok (map (region page) (detections flags)).
Proof.
  intro E. unfold segment_lines. rewrite E. simpl.
  apply scan_flags_detections. now apply is_text_row_len.
Qed.

End Simulation.

(** ** Runs of flagged rows *)








(** ** The segmenter *)

Section SegmenterFacts.

Context {lib : ImagingLib}.

Lemma bbox_region (page : Image) (r : Z * Z) :
  bbox (region page r) = padded page r.
Proof. reflexivity. Qed.

(** On a page whose gray array is not empty the flag sequence is computed
    without an exception. *)
Lemma is_text_row_nonempty (page : Image) :
  array_empty (gray page) = false -> exists flags, is_text_row page = Ok flags.
Proof.
  intro Hne. pose proof (projection_ok page Hne) as Ep.
  pose proof (projection_len page _ Ep) as Hl.
  unfold is_text_row. rewrite Ep. cbn [bind].
  set (proj := map sum_u64 _) in *.
  assert (Hh : 1 <= height page).
  { rewrite <- height_gray. destruct (gray page) as [|r g];
      [discriminate|]. rewrite len_cons. pose proof (len_nonneg g). lia. }
  unfold flags_of, thresh_of.
  destruct proj as [|p ps];
    [change (len (@nil Z)) with 0 in Hl; lia|].
  simpl. eexists. reflexivity.
Qed.

(** On a page with at least one row and one column the flag sequence is
    computed without an exception. *)
Lemma is_text_row_total (page : Image) :
  wf_image page -> 1 <= height page -> 1 <= width page ->
  exists flags, is_text_row page = Ok flags.
Proof.
  intros Hwf Hh Hw. apply is_text_row_nonempty.
  now apply array_nonempty_gray.
Qed.

(** The regions of the intervals of a scan are inside the page. *)
Lemma regions_in_bounds (page : Image) (flags : list bool) :
  len flags = height page ->
  Forall (fun l =>
            let '(x1, y1, x2, y2) := bbox l in
            0 <= y1 /\ y1 < y2 /\ y2 <= height page /\
            x1 = 0 /\ x2 = width page)
         (map (region page) (detections flags)).
Proof.
  intro Hlen. apply Forall_map.
  eapply Forall_impl; [|apply detections_bounds].
  intros [s e]. rewrite Hlen, bbox_region. unfold padded, pad. simpl.
  intros (H0 & H1 & H2). repeat split; lia.
Qed.

End SegmenterFacts.



(** C2. Every region returned for a page of height [H >= 1] and width
    [W >= 1] has [0 <= y1 < y2 <= H], [x1 = 0] and [x2 = W]; the call
    returns, and no region has [y1 >= y2]. *)
Theorem regions_within_page `{lib : ImagingLib} (page : Image) :
  wf_image page -> 1 <= height page -> 1 <= width page ->
  exists ls,
    segment_lines page = Ok ls /\
    Forall (fun l =>
              let '(x1, y1, x2, y2) := bbox l in
              0 <= y1 /\ y1 < y2 /\ y2 <= height page /\
              x1 = 0 /\ x2 = width page) ls.
Proof.
  intros Hwf Hh Hw.
  destruct (is_text_row_total page Hwf Hh Hw) as [flags Hflags].
  eexists. split; [apply segment_lines_detections; eassumption|].
  apply regions_in_bounds. now apply is_text_row_len.
Qed.

Lemma regions_within_page_witness :
  exists ls,
    @segment_lines gray_lib page_band = Ok ls /\
    Forall (fun l =>
              let '(x1, y1, x2, y2) := bbox l in
              0 <= y1 /\ y1 < y2 /\ y2 <= height page_band /\
              x1 = 0 /\ x2 = width page_band) ls.
Proof.
  apply (@regions_within_page gray_lib page_band).
  - repeat constructor.
  - vm_compute. discriminate.
  - vm_compute. discriminate.
Defined.



(** ** Order of the regions *)

Lemma StronglySorted_impl_in {A : Type} (R R' : A -> A -> Prop) (l : list A) :
  (forall a b, In a l -> In b l -> R a b -> R' a b) ->
  StronglySorted R l -> StronglySorted R' l.
Proof.
  induction l as [|x l IH]; intros Himp Hs; [constructor|].
  apply StronglySorted_inv in Hs. destruct Hs as [Hs Hx].
  constructor.
  - apply IH; [|exact Hs]. intros a b Ha Hb. apply Himp; now right.
  - rewrite Forall_forall in *. intros b Hb.
    apply Himp; [now left | now right | now apply Hx].
Qed.

Lemma StronglySorted_map {A B : Type} (f : A -> B) (R : B -> B -> Prop)
    (l : list A) :
  StronglySorted (fun a b => R (f a) (f b)) l -> StronglySorted R (map f l).
Proof.
  induction 1 as [|x l Hs IH Hx]; simpl; constructor; [exact IH|].
  apply Forall_map. exact Hx.
Qed.

(** C5, as stated, fails: on a page whose rows are ink, blank, ink,
    blank both regions have [y1 = 0] (both boxes are [(0, 0, 2, 4)]), so
    the order of [y1] is not strict. *)
Lemma y1_order_not_strict :
  wf_image page_two_lines /\
  1 <= height page_two_lines /\ 1 <= width page_two_lines /\
  exists ls,
    @segment_lines gray_lib page_two_lines = Ok ls /\
    map bbox ls = [(0, 0, 2, 4); (0, 0, 2, 4)] /\
    ~ strictly_increasing_y1 ls.
Proof.
  split; [repeat constructor|].
  split; [vm_compute; discriminate|].
  split; [vm_compute; discriminate|].
  eexists. split; [vm_compute; reflexivity|].
  split; [reflexivity|].
  unfold strictly_increasing_y1. intro Hs.
  apply StronglySorted_inv in Hs. destruct Hs as [_ Hx].
  inversion Hx as [|? ? Hlt _]; subst. simpl in Hlt. lia.
Qed.

(** C5, amended. The regions are returned in non-decreasing order of
    [y1], strictly increasing towards every region whose run starts at
    row 4 or later; they are the regions of the intervals of flagged
    rows, and of any two intervals the earlier one ends strictly before
    the later one starts. *)
Theorem regions_ordered `{lib : ImagingLib} (page : Image) :
  wf_image page -> 1 <= height page -> 1 <= width page ->
  exists flags ls,
    is_text_row page = Ok flags /\
    segment_lines page = Ok ls /\
    ls = map (region page) (detections flags) /\
    StronglySorted (fun a b => y1_of a <= y1_of b) ls /\
    StronglySorted
      (fun r r' =>
         snd r < fst r' /\
         (3 < fst r' -> y1_of (region page r) < y1_of (region page r')))
      (detections flags).
Proof.
  intros Hwf Hh Hw.
  destruct (is_text_row_total page Hwf Hh Hw) as [flags Hflags].
  exists flags, (map (region page) (detections flags)).
  split; [exact Hflags|].
  split; [now apply segment_lines_detections|].
  split; [reflexivity|].
  pose proof (detections_apart flags) as Hs.
  pose proof (detections_bounds flags) as Hb.
  rewrite Forall_forall in Hb.
  split.
  - apply StronglySorted_map.
    apply (StronglySorted_impl_in apart); [|exact Hs].
    intros [s e] [s' e'] Ha Hb'. unfold apart, y1_of, pad. simpl.
    apply Hb in Ha, Hb'. simpl in Ha, Hb'. unfold pad. lia.
  - apply (StronglySorted_impl_in apart); [|exact Hs].
    intros [s e] [s' e'] Ha Hb'. unfold apart, y1_of, pad. simpl.
    apply Hb in Ha, Hb'. simpl in Ha, Hb'. unfold pad. lia.
Qed.

Lemma regions_ordered_witness :
  exists flags ls,
    @is_text_row gray_lib page_two_lines = Ok flags /\
    segment_lines page_two_lines = Ok ls /\
    ls = map (region page_two_lines) (detections flags) /\
    StronglySorted (fun a b => y1_of a <= y1_of b) ls /\
    StronglySorted
      (fun r r' =>
         snd r < fst r' /\
         (3 < fst r' ->
          y1_of (region page_two_lines r) < y1_of (region page_two_lines r')))
      (detections flags).
Proof.
  apply (@regions_ordered gray_lib page_two_lines).
  - repeat constructor.
  - vm_compute. discriminate.
  - vm_compute. discriminate.
Defined.

(** ** binary64: the shape of a rounded result *)

Lemma digits2_bounds (p : positive) :
  2 ^ (Zpos (digits2_pos p) - 1) <= Zpos p < 2 ^ Zpos (digits2_pos p).
Proof.
  induction p as [p IH|p IH|]; cbn [digits2_pos].
  - rewrite Pos2Z.inj_succ, Z.pow_succ_r by lia.
    replace (Z.succ (Zpos (digits2_pos p)) - 1)
      with (Z.succ (Zpos (digits2_pos p) - 1)) by lia.
    rewrite Z.pow_succ_r by lia. lia.
  - rewrite Pos2Z.inj_succ, Z.pow_succ_r by lia.
    replace (Z.succ (Zpos (digits2_pos p)) - 1)
      with (Z.succ (Zpos (digits2_pos p) - 1)) by lia.
    rewrite Z.pow_succ_r by lia. lia.
  - simpl. lia.
Qed.

Lemma digits2_unique (p : positive) (k : Z) :
  2 ^ (k - 1) <= Zpos p < 2 ^ k -> Zpos (digits2_pos p) = k.
Proof.
  intros [Hlo Hhi]. pose proof (digits2_bounds p) as [Dlo Dhi].
  set (d := Zpos (digits2_pos p)) in *.
  assert (Hd : 0 < d) by (unfold d; lia).
  destruct (Z.lt_trichotomy d k) as [Hlt | [Heq | Hgt]]; [|exact Heq|].
  - assert (2 ^ d <= 2 ^ (k - 1)) by (apply Z.pow_le_mono_r; lia). lia.
  - assert (0 <= k).
    { destruct (Z.le_gt_cases 0 k) as [Hk|Hk]; [exact Hk|].
      rewrite (Z.pow_neg_r 2 k) in Hhi by lia. lia. }
    assert (2 ^ k <= 2 ^ (d - 1)) by (apply Z.pow_le_mono_r; lia). lia.
Qed.

Lemma shr_1_m (mrs : shr_record) :
  0 <= shr_m mrs -> shr_m (shr_1 mrs) = shr_m mrs / 2.
Proof.
  destruct mrs as [m r s]. simpl. intro Hm.
  destruct m as [|p|p]; [reflexivity| |lia].
  destruct p as [p|p|]; simpl shr_m.
  - rewrite Pos2Z.inj_xI. apply Z.div_unique with 1; lia.
  - rewrite Pos2Z.inj_xO. apply Z.div_unique with 0; lia.
  - reflexivity.
Qed.

Lemma pow2_xO (n : positive) : 2 ^ Zpos n~0 = 2 ^ Zpos n * 2 ^ Zpos n.
Proof.
  assert (E : Zpos n~0 = Zpos n + Zpos n) by lia.
  rewrite E. apply Z.pow_add_r; lia.
Qed.

Lemma pow2_xI (n : positive) : 2 ^ Zpos n~1 = 2 * (2 ^ Zpos n * 2 ^ Zpos n).
Proof.
  assert (E : Zpos n~1 = Z.succ (Zpos n + Zpos n)) by lia.
  rewrite E, Z.pow_succ_r, Z.pow_add_r by lia. reflexivity.
Qed.

Lemma iter_shr_1_m (n : positive) :
  forall mrs : shr_record,
    0 <= shr_m mrs ->
    shr_m (iter_pos shr_1 n mrs) = shr_m mrs / 2 ^ Zpos n.
Proof.
  assert (Hpos : forall mrs, 0 <= shr_m mrs -> 0 <= shr_m mrs / 2)
    by (intros; apply Z.div_pos; lia).
  induction n as [n IH|n IH|]; intros mrs Hm; cbn [iter_pos].
  - assert (H1 : 0 <= shr_m (shr_1 mrs)) by (rewrite shr_1_m; auto).
    assert (H2 : 0 <= shr_m (iter_pos shr_1 n (shr_1 mrs))).
    { rewrite IH by exact H1. apply Z.div_pos; lia. }
    rewrite IH, IH, shr_1_m by assumption.
    rewrite !Z.div_div by lia. f_equal. rewrite pow2_xI. ring.
  - assert (H2 : 0 <= shr_m (iter_pos shr_1 n mrs)).
    { rewrite IH by exact Hm. apply Z.div_pos; lia. }
    rewrite IH, IH by assumption.
    rewrite Z.div_div by lia. f_equal. rewrite pow2_xO. ring.
  - rewrite shr_1_m by exact Hm. reflexivity.
Qed.

Lemma shr_m_e (mrs : shr_record) (e n : Z) :
  0 <= n -> 0 <= shr_m mrs ->
  shr_m (fst (shr mrs e n)) = shr_m mrs / 2 ^ n /\ snd (shr mrs e n) = e + n.
Proof.
  intros Hn Hm. unfold shr. destruct n as [|q|q]; [| |lia]; simpl.
  - rewrite Z.div_1_r. lia.
  - split; [now apply iter_shr_1_m | reflexivity].
Qed.

Lemma round_nearest_even_range (m : Z) (l : location) :
  m <= round_nearest_even m l <= m + 1.
Proof.
  unfold round_nearest_even.
  destruct l as [|[| |]]; try lia. destruct (Z.even m); lia.
Qed.

Lemma digits2_gt (p : positive) (k : Z) :
  0 <= k -> 2 ^ k <= Zpos p -> k < Zpos (digits2_pos p).
Proof.
  intros Hk Hp. pose proof (digits2_bounds p) as [_ Dhi].
  destruct (Z.lt_ge_cases k (Zpos (digits2_pos p))) as [H|H]; [exact H|].
  assert (2 ^ Zpos (digits2_pos p) <= 2 ^ k)
    by (apply Z.pow_le_mono_r; lia).
  lia.
Qed.

Lemma digits2_le (p : positive) (k : Z) :
  0 <= k -> Zpos p < 2 ^ k -> Zpos (digits2_pos p) <= k.
Proof.
  intros Hk Hp. pose proof (digits2_bounds p) as [Dlo _].
  destruct (Z.le_gt_cases (Zpos (digits2_pos p)) k) as [H|H]; [exact H|].
  assert (2 ^ k <= 2 ^ (Zpos (digits2_pos p) - 1))
    by (apply Z.pow_le_mono_r; lia).
  lia.
Qed.

(** Dropping all but the leading 53 bits. *)
Lemma leading_53 (x d : Z) :
  53 <= d -> 2 ^ (d - 1) <= x < 2 ^ d ->
  2 ^ 52 <= x / 2 ^ (d - 53) < 2 ^ 53.
Proof.
  intros Hd [Hlo Hhi].
  assert (Hq : 0 < 2 ^ (d - 53)) by (apply Z.pow_pos_nonneg; lia).
  assert (E1 : 2 ^ (d - 1) = 2 ^ (d - 53) * 2 ^ 52).
  { rewrite <- Z.pow_add_r by lia. f_equal. lia. }
  assert (E2 : 2 ^ d = 2 ^ (d - 53) * 2 ^ 53).
  { rewrite <- Z.pow_add_r by lia. f_equal. lia. }
  split.
  - apply Z.div_le_lower_bound; [exact Hq|]. now rewrite <- E1.
  - apply Z.div_lt_upper_bound; [exact Hq|]. now rewrite <- E2.
Qed.

Lemma shr_fexp_shape (m : positive) (e : Z) :
  53 <= Zpos (digits2_pos m) ->
  -1074 <= Zpos (digits2_pos m) + e - 53 ->
  shr_m (fst (shr_fexp F64.prec F64.emax (Zpos m) e loc_Exact))
  = Zpos m / 2 ^ (Zpos (digits2_pos m) - 53) /\
  snd (shr_fexp F64.prec F64.emax (Zpos m) e loc_Exact)
  = e + (Zpos (digits2_pos m) - 53).
Proof.
  intros Hd Hmin. unfold shr_fexp.
  replace (fexp F64.prec F64.emax (Zdigits2 (Zpos m) + e) - e)
    with (Zpos (digits2_pos m) - 53).
  - apply shr_m_e; [lia | simpl; lia].
  - unfold fexp, emin, F64.prec, F64.emax.
    cbn [Zdigits2]. lia.
Qed.


Lemma iter_xO_value (p k : positive) :
  Zpos (Pos.iter xO p k) = Zpos p * 2 ^ Zpos k.
Proof.
  induction k as [|k IH] using Pos.peano_ind.
  - simpl. lia.
  - rewrite Pos.iter_succ, Pos2Z.inj_xO, IH, Pos2Z.inj_succ,
      Z.pow_succ_r by lia. ring.
Qed.




(** ** Row sums, their maximum and the flags *)

Lemma sum_u64_range (r : list Z) : 0 <= sum_u64 r < 2 ^ 64.
Proof.
  unfold sum_u64.
  assert (G : forall acc, 0 <= acc < 2 ^ 64 ->
              0 <= fold_left (fun a v => (a + v) mod 2 ^ 64) r acc < 2 ^ 64).
  { induction r as [|v r IH]; intros acc Hacc; simpl; [exact Hacc|].
    apply IH. apply Z.mod_pos_bound. lia. }
  apply G. lia.
Qed.

Lemma fold_max_ge (l : list Z) :
  forall x, x <= fold_left Z.max l x /\ Forall (fun p => p <= fold_left Z.max l x) l.
Proof.
  induction l as [|a l IH]; intro x; simpl.
  - split; [lia | constructor].
  - destruct (IH (Z.max x a)) as [H1 H2]. split; [lia|].
    constructor; [lia | exact H2].
Qed.

Lemma fold_max_in (l : list Z) :
  forall x, In (fold_left Z.max l x) (x :: l).
Proof.
  induction l as [|a l IH]; intro x; simpl; [now left|].
  destruct (IH (Z.max x a)) as [H|H].
  - destruct (Z.max_spec x a) as [[_ E]|[_ E]]; rewrite E in H |- *;
      [right; now left | now left].
  - right. now right.
Qed.

Lemma array_max_spec (a : list Z) (m : Z) :
  array_max a = Ok m -> In m a /\ Forall (fun p => p <= m) a.
Proof.
  destruct a as [|x a]; simpl; [discriminate|].
  intro E. injection E as <-. split; [apply fold_max_in|].
  destruct (fold_max_ge a x) as [H1 H2]. now constructor.
Qed.

Section FlagFacts.

Context {lib : ImagingLib}.

Lemma projection_range (page : Image) (proj : list Z) :
  projection page = Ok proj -> Forall (fun p => 0 <= p < 2 ^ 64) proj.
Proof.
  intro E. apply projection_inv in E as [_ ->]. apply Forall_map.
  apply Forall_forall. intros r _. apply sum_u64_range.
Qed.

(** Reading a blank row outside a run changes nothing. *)
Lemma scan_blank_rows (page : Image) (flags : list bool) :
  Forall (eq false) flags ->
  forall i, foldM (scan_step page) (enumerate i flags) scan_init
            = Ok scan_init.
Proof.
  induction 1 as [|flag flags <- _ IH]; intro i; simpl; [reflexivity|].
  apply IH.
Qed.

Lemma scan_flags_blank (page : Image) (flags : list bool) :
  Forall (eq false) flags -> scan_flags page flags = Ok [].
Proof.
  intro H. unfold scan_flags. now rewrite scan_blank_rows.
Qed.

End FlagFacts.




(** No row of sum 0 exceeds a threshold of zero. *)
Lemma zero_rows_not_flagged (ps : list Z) :
  Forall (eq 0) ps ->
  map (fun p => F64.gtb (F64.of_Z p) (S754_zero false)) ps
  = repeat false (length ps).
Proof.
  induction 1 as [|p ps <- _ IH]; cbn [map length repeat]; [reflexivity|].
  rewrite IH. reflexivity.
Qed.

(** C4. When the row sums of a page are computed (the page has at least
    one row and one column: on an empty gray array line 29 raises) and the
    largest of them is 0, the threshold is (positive) zero, no row is
    flagged, and [segment_lines] returns the empty list without raising. *)
Theorem blank_page_no_lines `{lib : ImagingLib} (page : Image)
    (proj : list Z) :
  projection page = Ok proj ->
  array_max proj = Ok 0 ->
  thresh page = Ok (S754_zero false) /\
  is_text_row page = Ok (repeat false (length proj)) /\
  segment_lines page = Ok [].
Proof.
  intros Hproj Hmax.
  assert (Ht : thresh_of proj = Ok (S754_zero false)).
  { unfold thresh_of. rewrite Hmax. reflexivity. }
  assert (Hz : Forall (eq 0) proj).
  { apply array_max_spec in Hmax. destruct Hmax as [_ Hle].
    pose proof (projection_range page proj Hproj) as Hr.
    rewrite Forall_forall in *. intros p Hp.
    specialize (Hle p Hp). specialize (Hr p Hp). lia. }
  assert (Hf : is_text_row page = Ok (repeat false (length proj))).
  { unfold is_text_row, flags_of. rewrite Hproj. cbn [bind]. rewrite Ht.
    cbn [bind]. f_equal. now apply zero_rows_not_flagged. }
  split; [unfold thresh; rewrite Hproj; exact Ht|]. split; [exact Hf|].
  unfold segment_lines. rewrite Hf. cbn [bind].
  apply scan_flags_blank. apply Forall_forall.
  intros b Hb. apply repeat_spec in Hb. now subst.
Qed.

Lemma blank_page_no_lines_witness :
  @thresh gray_lib page_blank = Ok (S754_zero false) /\
  is_text_row page_blank = Ok (repeat false (length [0; 0])) /\
  segment_lines page_blank = Ok [].
Proof.
  apply (@blank_page_no_lines gray_lib page_blank [0; 0]);
    vm_compute; reflexivity.
Defined.



(** ** Pages with the same mask *)

Section SameMask.

Context {lib : ImagingLib}.

Lemma bw_inv (page : Image) (mask : list (list Z)) :
  bw page = Some mask ->
  mask = threshold_binary_inv (otsu (gray page)) (gray page).
Proof.
  unfold bw, bw_of. destruct (array_empty (gray page)); [discriminate|].
  intro E. now injection E as <-.
Qed.

Lemma bw_len (page : Image) (mask : list (list Z)) :
  bw page = Some mask -> len mask = height page.
Proof.
  intro E. apply bw_inv in E as ->. unfold threshold_binary_inv.
  now rewrite len_map, height_gray.
Qed.

(** The first row of the mask of a well-formed page is as wide as the
    page. *)
Lemma bw_first_row (page : Image) (r : list Z) (rs : list (list Z)) :
  wf_image page -> bw page = Some (r :: rs) -> len r = width page.
Proof.
  intros Hwf E. apply bw_inv in E. revert Hwf E.
  unfold threshold_binary_inv, gray, convert, wf_image.
  cbn [rows]. intros Hwf E.
  destruct (rows page) as [|r0 rs0]; [discriminate|].
  inversion Hwf as [|? ? Hr _]; subst.
  cbn [map] in E. injection E as -> _. now rewrite !len_map.
Qed.

(** Flags are computed only for a mask with at least one row. *)
Lemma is_text_row_ok_rows (page : Image) (flags : list bool) :
  is_text_row page = Ok flags -> exists r rs, bw page = Some (r :: rs).
Proof.
  unfold is_text_row, flags_of, thresh_of, projection, projection_of.
  fold (bw page). destruct (bw page) as [[|r rs]|];
    cbn [sum_axis1 map array_max bind]; [discriminate | eauto | discriminate].
Qed.

Lemma map_bbox_region (page : Image) (ds : list (Z * Z)) :
  map bbox (map (region page) ds) = map (padded page) ds.
Proof. rewrite map_map. apply map_ext. intro r. apply bbox_region. Qed.

End SameMask.

(** C8. Two pages with the same ink mask get the same number of regions
    with the same boxes: everything after the mask is computed from the
    mask alone. *)
Theorem same_mask_same_boxes `{lib : ImagingLib} (p1 p2 : Image) :
  wf_image p1 -> wf_image p2 ->
  bw p1 = bw p2 ->
  result_map (map bbox) (segment_lines p1)
  = result_map (map bbox) (segment_lines p2) /\
  result_map (@length _) (segment_lines p1)
  = result_map (@length _) (segment_lines p2).
Proof.
  intros Hwf1 Hwf2 Hbw.
  assert (Hproj : projection p1 = projection p2).
  { unfold projection, projection_of. fold (bw p1) (bw p2). now rewrite Hbw. }
  assert (Hrow : is_text_row p1 = is_text_row p2)
    by (unfold is_text_row; now rewrite Hproj).
  destruct (is_text_row p2) as [flags|e] eqn:E2.
  - rewrite (segment_lines_detections p1 Hwf1 flags Hrow).
    rewrite (segment_lines_detections p2 Hwf2 flags E2).
    unfold result_map. cbn [bind]. rewrite !length_map, !map_bbox_region.
    split; [|reflexivity]. f_equal.
    destruct (is_text_row_ok_rows p2 flags E2) as (r & rs & Eb).
    assert (Hh : height p1 = height p2).
    { rewrite <- (bw_len p1 _ (eq_trans Hbw Eb)).
      now rewrite <- (bw_len p2 _ Eb). }
    assert (Hw : width p1 = width p2).
    { rewrite <- (bw_first_row p1 r rs Hwf1 (eq_trans Hbw Eb)).
      now rewrite <- (bw_first_row p2 r rs Hwf2 Eb). }
    apply map_ext. intro r0. unfold padded. now rewrite Hw, Hh.
  - unfold segment_lines. rewrite Hrow, E2. split; reflexivity.
Qed.

Lemma same_mask_same_boxes_witness :
  result_map (map bbox) (@segment_lines gray_lib page_two_lines)
  = result_map (map bbox) (segment_lines page_two_lines_dim) /\
  result_map (@length _) (@segment_lines gray_lib page_two_lines)
  = result_map (@length _) (segment_lines page_two_lines_dim).
Proof.
  apply (@same_mask_same_boxes gray_lib page_two_lines page_two_lines_dim).
  - repeat constructor.
  - repeat constructor.
  - vm_compute. reflexivity.
Defined.

(** ** The page loop of the engine *)

Section EngineFacts.

Context {lib : ImagingLib}.
Variable decode : Image -> pystr.

Lemma ensure_rgb_mode (img : Image) : mode (ensure_rgb img) = RGB.
Proof.
  unfold ensure_rgb. destruct (Mode_eqb (mode img) RGB) eqn:E; simpl.
  - now apply Mode_eqb_eq.
  - reflexivity.
Qed.

Lemma line_step_cases (acc : list LineDict) (l : LineImage) :
  line_step decode acc l
  = if kept decode l then acc ++ [line_dict decode l] else acc.
Proof.
  unfold line_step, kept, line_dict.
  destruct (truthy (_recognize_line decode (image l))); cbn [negb];
    [|reflexivity].
  now destruct (bbox l) as [[[x1 y1] x2] y2].
Qed.

Lemma line_loop (ls : list LineImage) :
  forall acc,
    fold_left (line_step decode) ls acc
    = acc ++ map (line_dict decode) (filter (kept decode) ls).
Proof.
  induction ls as [|l ls IH]; intro acc; cbn [fold_left filter].
  - now rewrite app_nil_r.
  - rewrite IH, line_step_cases.
    destruct (kept decode l); [|reflexivity].
    cbn [map]. now rewrite <- app_assoc.
Qed.

Lemma page_loop (pages : list Image) :
  forall (lss : list (list LineImage)) (i : Z) (acc : list PageDict),
    Forall2 (fun p ls => segment_lines p = Ok ls) pages lss ->
    foldM (page_step decode) (enumerate i pages) acc
    = Ok (acc ++ map (page_dict decode) (enumerate i lss)).
Proof.
  induction pages as [|p pages IH]; intros lss i acc H;
    inversion H as [|? ls ? lss' Hp Hrest]; subst;
    cbn [enumerate foldM map].
  - now rewrite app_nil_r.
  - unfold page_step at 1. rewrite Hp. cbn [bind].
    rewrite (IH lss' _ _ Hrest), line_loop, <- app_assoc. reflexivity.
Qed.

(** What [ocr_pages] returns when every page is segmented. *)
Lemma ocr_pages_spec (pages : list Image) (lss : list (list LineImage)) :
  Forall2 (fun p ls => segment_lines p = Ok ls) pages lss ->
  ocr_pages decode pages = Ok (map (page_dict decode) (enumerate 1 lss)).
Proof. intro H. unfold ocr_pages. now rewrite (page_loop pages lss). Qed.

Lemma nth_error_enumerate {A : Type} (l : list A) :
  forall (i : Z) (k : nat) (a : A),
    nth_error l k = Some a ->
    nth_error (enumerate i l) k = Some (i + Z.of_nat k, a).
Proof.
  induction l as [|x l IH]; intros i k a H; destruct k as [|k];
    try discriminate; cbn [enumerate nth_error] in *.
  - injection H as ->. do 2 f_equal. lia.
  - rewrite (IH (i + 1) k a H). do 2 f_equal. lia.
Qed.

Lemma length_enumerate {A : Type} (l : list A) :
  forall i, length (enumerate i l) = length l.
Proof.
  induction l as [|x l IH]; intro i; simpl; [reflexivity|].
  now rewrite IH.
Qed.

End EngineFacts.

Section Recognizers.

Context {lib : ImagingLib}.
Variables decode decode' : Image -> pystr.
Hypothesis Hrgb : forall img, mode img = RGB -> decode' img = decode img.

Lemma recognize_line_ext (img : Image) :
  _recognize_line decode' img = _recognize_line decode img.
Proof.
  unfold _recognize_line. cbv zeta. f_equal.
  apply Hrgb, ensure_rgb_mode.
Qed.

Lemma line_loop_ext (ls : list LineImage) :
  forall acc,
    fold_left (line_step decode') ls acc
    = fold_left (line_step decode) ls acc.
Proof.
  induction ls as [|l ls IH]; intro acc; cbn [fold_left]; [reflexivity|].
  rewrite IH. unfold line_step. now rewrite recognize_line_ext.
Qed.

(** Two models that decode the same text for every [RGB] image give the
    same output. *)
Lemma ocr_pages_ext (pages : list Image) :
  ocr_pages decode' pages = ocr_pages decode pages.
Proof.
  unfold ocr_pages. generalize 1, (@nil PageDict).
  induction pages as [|p pages IH]; intros i acc;
    cbn [enumerate foldM]; [reflexivity|].
  unfold page_step at 1 3. destruct (segment_lines p); cbn [bind];
    [|reflexivity].
  now rewrite line_loop_ext, IH.
Qed.

End Recognizers.

(** ** Stripped texts *)

Lemma lstrip_head (s : pystr) (c : N) (s' : pystr) :
  lstrip s = c :: s' -> isspace c = false.
Proof.
  induction s as [|x s IH]; cbn [lstrip]; [discriminate|].
  destruct (isspace x) eqn:E; [exact IH|].
  intro H. injection H as <- _. exact E.
Qed.

Lemma lstrip_keeps_last (l : pystr) (c : N) :
  isspace c = false -> exists w, lstrip (l ++ [c]) = w ++ [c].
Proof.
  intro Hc. induction l as [|x l IH]; cbn [app lstrip].
  - rewrite Hc. now exists [].
  - destruct (isspace x); [exact IH|]. now exists (x :: l).
Qed.

Lemma lstrip_nil_iff (s : pystr) :
  lstrip s = [] <-> forallb isspace s = true.
Proof.
  induction s as [|c s IH]; cbn [lstrip forallb]; [tauto|].
  destruct (isspace c); cbn [andb]; [exact IH|].
  split; discriminate.
Qed.

(** A text is empty after [strip] exactly when all its characters are
    whitespace. *)
Lemma truthy_strip (s : pystr) :
  truthy (strip s) = negb (forallb isspace s).
Proof.
  unfold strip, rstrip.
  destruct (lstrip s) as [|c u] eqn:Eu.
  - apply lstrip_nil_iff in Eu. now rewrite Eu.
  - pose proof (lstrip_head s c u Eu) as Hc.
    destruct (forallb isspace s) eqn:Ea.
    + apply lstrip_nil_iff in Ea. congruence.
    + cbn [rev]. destruct (lstrip_keeps_last (rev u) c Hc) as [w Hw].
      rewrite Hw, rev_app_distr. reflexivity.
Qed.

Section EngineClaims.

Context {lib : ImagingLib}.
Variable decode : Image -> pystr.

Lemma record_of_line (l : LineImage) :
  record_boxed_text (line_dict decode l) = boxed_text decode l.
Proof.
  unfold record_boxed_text, line_dict, boxed_text.
  now destruct (bbox l) as [[[x1 y1] x2] y2].
Qed.

Lemma filter_none (ls : list LineImage) :
  Forall (fun l => _recognize_line decode (image l) = []) ls ->
  filter (kept decode) ls = [].
Proof.
  induction 1 as [|l ls Hl _ IH]; cbn [filter]; [reflexivity|].
  unfold kept at 1. now rewrite Hl.
Qed.

(** The kept lines are those whose decoded text has a character that is
    not whitespace. *)
Lemma kept_nonspace (l : LineImage) :
  kept decode l = negb (forallb isspace (decode (ensure_rgb (image l)))).
Proof. unfold kept, _recognize_line. cbv zeta. apply truthy_strip. Qed.

Lemma filter_all_space (ls : list LineImage) :
  Forall (fun l => forallb isspace (decode (ensure_rgb (image l))) = true)
         ls ->
  filter (kept decode) ls = [].
Proof.
  induction 1 as [|l ls Hl _ IH]; cbn [filter]; [reflexivity|].
  rewrite kept_nonspace, Hl. exact IH.
Qed.

Lemma Forall2_page_dicts (lss : list (list LineImage)) :
  forall i,
    Forall2 (fun ls pd =>
               map record_boxed_text (k_lines pd)
               = map (boxed_text decode) (filter (kept decode) ls))
            lss (map (page_dict decode) (enumerate i lss)).
Proof.
  induction lss as [|ls lss IH]; intro i; cbn [enumerate map];
    constructor; [|apply IH].
  unfold page_dict. cbn [k_lines snd]. rewrite map_map.
  apply map_ext. intro l. apply record_of_line.
Qed.

End EngineClaims.

(** C6, as stated, fails: a model that decodes only a space makes every
    text empty after [strip], and the boxes the segmenter produced are in
    no line record of the page. *)
Lemma box_dropped_with_empty_text :
  exists ls,
    @segment_lines gray_lib page_two_lines = Ok ls /\
    map bbox ls = [(0, 0, 2, 4); (0, 0, 2, 4)] /\
    ocr_pages decode_space [page_two_lines]
    = Ok [ {| k_page := 1; k_lines := [] |} ].
Proof.
  eexists. split; [vm_compute; reflexivity|].
  split; reflexivity.
Qed.

(** C6, amended. For every page, the boxes and texts of its output line
    records are, in order, the boxes and texts of the segmented lines
    whose recognized text is not empty after [strip], the boxes unchanged;
    and the image handed to the model is in mode [RGB], so that the output
    depends on the model through [RGB] images only. *)
Theorem kept_boxes_propagated `{lib : ImagingLib}
    (decode : Image -> pystr)
    (pages : list Image) (lss : list (list LineImage)) :
  Forall2 (fun p ls => segment_lines p = Ok ls) pages lss ->
  exists out,
    ocr_pages decode pages = Ok out /\
    Forall2 (fun ls pd =>
               map record_boxed_text (k_lines pd)
               = map (boxed_text decode) (filter (kept decode) ls))
            lss out /\
    (forall img,
        mode (ensure_rgb img) = RGB /\
        _recognize_line decode img = strip (decode (ensure_rgb img))) /\
    (forall decode',
        (forall img, mode img = RGB -> decode' img = decode img) ->
        ocr_pages decode' pages = ocr_pages decode pages).
Proof.
  intro H. eexists. split; [apply ocr_pages_spec; exact H|].
  split; [apply Forall2_page_dicts|].
  split.
  - intro img. split; [apply ensure_rgb_mode | reflexivity].
  - intros decode' Hd. now apply ocr_pages_ext.
Qed.

Lemma kept_boxes_propagated_witness :
  exists out,
    @ocr_pages gray_lib decode_hi [page_band] = Ok out /\
    Forall2 (fun ls pd =>
               map record_boxed_text (k_lines pd)
               = map (boxed_text decode_hi) (filter (kept decode_hi) ls))
            [[ {| image := page_rows page_band 1 9; bbox := (0, 1, 2, 9) |} ]]
            out /\
    (forall img,
        mode (ensure_rgb img) = RGB /\
        _recognize_line decode_hi img = strip (decode_hi (ensure_rgb img))) /\
    (forall decode',
        (forall img, mode img = RGB -> decode' img = decode_hi img) ->
        ocr_pages decode' [page_band] = ocr_pages decode_hi [page_band]).
Proof.
  apply (@kept_boxes_propagated gray_lib decode_hi [page_band]).
  constructor; [vm_compute; reflexivity | constructor].
Defined.

(** C10. [ocr_pages] returns one dict per page, in order, numbered from
    1.  The line records of a page are, in order, the boxes of the
    segmented lines whose decoded text has a character that is not
    whitespace, each with that text stripped: a line whose text is empty
    after [strip] (all its characters are whitespace) is omitted.  So the
    records may be fewer than the segmented lines, and a page whose lines
    all have an empty stripped text is still there, with an empty list of
    lines. *)
Theorem empty_text_lines_omitted `{lib : ImagingLib}
    (decode : Image -> pystr)
    (pages : list Image) (lss : list (list LineImage)) :
  Forall2 (fun p ls => segment_lines p = Ok ls) pages lss ->
  exists out,
    ocr_pages decode pages = Ok out /\
    length out = length pages /\
    forall (k : nat) (ls : list LineImage),
      nth_error lss k = Some ls ->
      exists pd,
        nth_error out k = Some pd /\
        k_page pd = 1 + Z.of_nat k /\
        k_lines pd = map (line_dict decode) (filter (kept decode) ls) /\
        (length (k_lines pd) <= length ls)%nat /\
        (Forall (fun l => _recognize_line decode (image l) = []) ls ->
         k_lines pd = []) /\
        map record_boxed_text (k_lines pd)
        = map (fun l => (bbox l, strip (decode (ensure_rgb (image l)))))
              (filter
                 (fun l =>
                    negb (forallb isspace (decode (ensure_rgb (image l)))))
                 ls) /\
        (forall l, In l ls ->
                   strip (decode (ensure_rgb (image l))) = [] ->
                   ~ In (line_dict decode l) (k_lines pd)) /\
        (Forall (fun l => strip (decode (ensure_rgb (image l))) = []) ls ->
         k_lines pd = []) /\
        (Forall
           (fun l => forallb isspace (decode (ensure_rgb (image l))) = true)
           ls ->
         k_lines pd = []).
Proof.
  intro H. eexists. split; [apply ocr_pages_spec; exact H|].
  split.
  - rewrite length_map, length_enumerate. symmetry.
    exact (Forall2_length H).
  - intros k ls Hk. exists (page_dict decode (1 + Z.of_nat k, ls)).
    split.
    + apply map_nth_error. now apply nth_error_enumerate.
    + unfold page_dict. cbn [k_page k_lines fst snd].
      split; [reflexivity|]. split; [reflexivity|].
      split; [rewrite length_map; apply filter_length_le|].
      split; [intro Hall; now rewrite filter_none|].
      split.
      * rewrite map_map.
        rewrite (filter_ext _ _ (kept_nonspace decode) ls).
        apply map_ext. intro l. apply record_of_line.
      * split; [|split].
        -- intros l Hl Hs Hin. apply in_map_iff in Hin.
           destruct Hin as (l' & El & Hl').
           apply filter_In in Hl'. destruct Hl' as [_ Hk'].
           assert (Et : k_text (line_dict decode l')
                        = k_text (line_dict decode l)) by now rewrite El.
           unfold line_dict in Et.
           destruct (bbox l') as [[[a1 b1] c1] d1],
                    (bbox l) as [[[a2 b2] c2] d2].
           cbn [k_text] in Et. unfold kept in Hk'. rewrite Et in Hk'.
           unfold _recognize_line in Hk'. cbv zeta in Hk'.
           rewrite Hs in Hk'. discriminate.
        -- intro Hall. now rewrite filter_none.
        -- intro Hall. now rewrite filter_all_space.
Qed.

Lemma empty_text_lines_omitted_witness :
  exists out,
    @ocr_pages gray_lib decode_space [page_band; page_blank] = Ok out /\
    length out = 2%nat /\
    forall (k : nat) (ls : list LineImage),
      nth_error
        [[ {| image := page_rows page_band 1 9; bbox := (0, 1, 2, 9) |} ]; []]
        k = Some ls ->
      exists pd,
        nth_error out k = Some pd /\
        k_page pd = 1 + Z.of_nat k /\
        k_lines pd
        = map (line_dict decode_space) (filter (kept decode_space) ls) /\
        (length (k_lines pd) <= length ls)%nat /\
        (Forall (fun l => _recognize_line decode_space (image l) = []) ls ->
         k_lines pd = []) /\
        map record_boxed_text (k_lines pd)
        = map (fun l => (bbox l, strip (decode_space (ensure_rgb (image l)))))
              (filter
                 (fun l =>
                    negb (forallb isspace
                            (decode_space (ensure_rgb (image l)))))
                 ls) /\
        (forall l, In l ls ->
                   strip (decode_space (ensure_rgb (image l))) = [] ->
                   ~ In (line_dict decode_space l) (k_lines pd)) /\
        (Forall (fun l => strip (decode_space (ensure_rgb (image l))) = [])
                ls ->
         k_lines pd = []) /\
        (Forall
           (fun l =>
              forallb isspace (decode_space (ensure_rgb (image l))) = true)
           ls ->
         k_lines pd = []).
Proof.
  apply (@empty_text_lines_omitted gray_lib decode_space
           [page_band; page_blank]).
  constructor; [vm_compute; reflexivity|].
  constructor; [vm_compute; reflexivity | constructor].
Defined.

(** ** The segmenter over the object store *)

Section StoreFacts.

Context {lib : ImagingLib}.

Lemma extends_refl (h : Heap) : extends h h.
Proof. split; [lia | reflexivity]. Qed.

Lemma extends_trans (h1 h2 h3 : Heap) :
  extends h1 h2 -> extends h2 h3 -> extends h1 h3.
Proof.
  intros [N1 O1] [N2 O2]. split; [lia|].
  intros a Ha. rewrite O2 by lia. now apply O1.
Qed.

Lemma new_extends (img : Image) (h : Heap) :
  extends h (snd (new img h)) /\
  obj (snd (new img h)) (next h) = img /\
  next (snd (new img h)) = S (next h).
Proof.
  unfold new, extends. cbn [snd next obj].
  repeat split; try lia.
  - intros a Ha. destruct (Nat.eqb_spec a (next h)); [lia | reflexivity].
  - now rewrite Nat.eqb_refl.
Qed.

Lemma allocated_extends (h h' : Heap) (los : list LineObj) :
  extends h h' -> allocated h los -> allocated h' los.
Proof.
  intros [N _] H. unfold allocated in *.
  eapply Forall_impl; [|exact H]. simpl. intros lo ?. lia.
Qed.

Lemma deref_extends (h h' : Heap) (los : list LineObj) :
  extends h h' -> allocated h los ->
  map (deref h') los = map (deref h) los.
Proof.
  intros [_ O] H. apply map_ext_in. intros lo Hin.
  unfold allocated in H. rewrite Forall_forall in H.
  unfold deref. now rewrite O by (now apply H).
Qed.

Variable page : Image.
Variable a : addr.

(** Building a region allocates its crop and leaves the rest alone. *)
Lemma emit_st_sim (h : Heap) (los : list LineObj) (y1 y2 : Z) :
  (a < next h)%nat -> obj h a = page -> allocated h los ->
  sim_lines h (emit page (map (deref h) los) y1 y2)
            (emit_st a los y1 y2 h).
Proof.
  intros Ha Hp Hal.
  unfold emit_st, emit, width_st, crop_st, bindM, get, ret, lift.
  rewrite Hp.
  destruct (crop page (0, y1, width page, y2)) as [c|e]; cbn [bind].
  - destruct (new_extends c h) as (Hext & Hobj & Hnext).
    destruct (new c h) as [r h'] eqn:En.
    assert (Er : r = Ok (next h)) by (unfold new in En; congruence).
    subst r. cbn [snd] in *.
    assert (Hp' : obj h' a = page)
      by (destruct Hext as [_ O]; now rewrite O).
    rewrite Hp'. unfold sim_lines. cbn [fst snd].
    split; [exact Hext|]. split.
    + apply Forall_app. split.
      * now apply (allocated_extends h).
      * constructor; [cbn [image_at]; lia | constructor].
    + rewrite map_app, (deref_extends h h') by assumption.
      cbn [map]. unfold deref at 2. cbn [image_at bbox_of].
      now rewrite Hobj.
  - unfold sim_lines. cbn [fst snd].
    split; [apply extends_refl | reflexivity].
Qed.

Lemma scan_step_st_sim (h : Heap) (sst : ScanState_st) (x : Z * bool) :
  (a < next h)%nat -> obj h a = page -> allocated h (lines_st sst) ->
  sim_state h (scan_step page (abs_state h sst) x)
            (scan_step_st a (gray page) sst x h).
Proof.
  intros Ha Hp Hal. destruct x as [i flag].
  unfold scan_step, scan_step_st. cbv zeta.
  cbn [abs_state lines in_line start_row].
  destruct (flag && negb (in_line_st sst)).
  { unfold ret, sim_state. cbn [fst snd].
    split; [apply extends_refl|]. split; [exact Hal | reflexivity]. }
  destruct (negb flag && in_line_st sst).
  - pose proof (emit_st_sim h (lines_st sst)
                  (Z.max 0 (start_row_st sst - pad))
                  (Z.min (len (gray page)) (i + pad)) Ha Hp Hal) as S.
    unfold bindM, sim_lines, sim_state in *.
    destruct (emit_st a (lines_st sst) _ _ h) as [r h'].
    destruct (emit page (map (deref h) (lines_st sst)) _ _) as [ls|e],
      r as [los|e']; cbn [fst snd bind ret] in *;
      destruct S as [Hext S]; try contradiction;
      (split; [exact Hext|]).
    + destruct S as [Hal' <-]. unfold ret. cbn [fst snd].
      split; [exact Hal' | reflexivity].
    + exact S.
  - unfold ret, sim_state. cbn [fst snd].
    split; [apply extends_refl|]. split; [exact Hal | reflexivity].
Qed.

Lemma scan_loop_st_sim (l : list (Z * bool)) :
  forall (h : Heap) (sst : ScanState_st),
    (a < next h)%nat -> obj h a = page -> allocated h (lines_st sst) ->
    sim_state h (foldM (scan_step page) l (abs_state h sst))
              (foldM_st (scan_step_st a (gray page)) l sst h).
Proof.
  induction l as [|x l IH]; intros h sst Ha Hp Hal;
    cbn [foldM foldM_st].
  - unfold ret, sim_state. cbn [fst snd].
    split; [apply extends_refl|]. split; [exact Hal | reflexivity].
  - pose proof (scan_step_st_sim h sst x Ha Hp Hal) as S.
    unfold bindM, sim_state in S |- *.
    destruct (scan_step_st a (gray page) sst x h) as [r h'].
    destruct (scan_step page (abs_state h sst) x) as [st|e],
      r as [sst'|e']; cbn [fst snd bind] in *;
      destruct S as [Hext S]; try contradiction.
    + destruct S as [Hal' <-].
      assert (Ha' : (a < next h')%nat) by (destruct Hext; lia).
      assert (Hp' : obj h' a = page)
        by (destruct Hext as [_ O]; now rewrite O).
      destruct (IH h' sst' Ha' Hp' Hal') as [Hext' S'].
      split; [now apply (extends_trans h h')|exact S'].
    + split; [exact Hext | exact S].
Qed.

Lemma finish_st_sim (h : Heap) (sst : ScanState_st) :
  (a < next h)%nat -> obj h a = page -> allocated h (lines_st sst) ->
  sim_lines h (finish page (abs_state h sst))
            (finish_st a (gray page) sst h).
Proof.
  intros Ha Hp Hal. unfold finish, finish_st. cbv zeta.
  cbn [abs_state lines in_line start_row].
  destruct (in_line_st sst).
  - now apply emit_st_sim.
  - unfold ret, sim_lines. cbn [fst snd].
    split; [apply extends_refl|]. split; [exact Hal | reflexivity].
Qed.

(** The store-passing [segment_lines] computes what the value-level one
    does, and only adds objects to the store. *)
Lemma segment_lines_st_sim (h : Heap) :
  (a < next h)%nat -> obj h a = page ->
  sim_lines h (segment_lines page) (segment_lines_st a h).
Proof.
  intros Ha Hp.
  unfold segment_lines_st, convert_st, bindM at 1 2 3, get. rewrite Hp.
  destruct (new_extends (convert L page) h) as (Hext & Hobj & Hnext).
  destruct (new (convert L page) h) as [r h1] eqn:En.
  assert (Er : r = Ok (next h)) by (unfold new in En; congruence).
  subst r. cbn [snd] in *. rewrite Hobj.
  fold (gray page). fold (projection page). fold (is_text_row page).
  unfold segment_lines, bindM at 1, lift.
  destruct (is_text_row page) as [flags|e]; cbn [bind].
  2:{ unfold sim_lines. cbn [fst snd]. split; [exact Hext | reflexivity]. }
  assert (Ha1 : (a < next h1)%nat) by lia.
  assert (Hp1 : obj h1 a = page)
    by (destruct Hext as [_ O]; now rewrite O).
  set (sst0 := {| lines_st := []; in_line_st := false;
                  start_row_st := 0 |}).
  assert (Hal0 : allocated h1 (lines_st sst0)) by constructor.
  pose proof (scan_loop_st_sim (enumerate 0 flags) h1 sst0 Ha1 Hp1 Hal0)
    as S.
  change (abs_state h1 sst0) with scan_init in S.
  unfold scan_flags, bindM, sim_state, sim_lines in *.
  destruct (foldM_st _ _ sst0 h1) as [r h2].
  destruct (foldM (scan_step page) (enumerate 0 flags) scan_init)
    as [st|e], r as [sst|e']; cbn [fst snd bind] in *;
    destruct S as [Hext2 S]; try contradiction.
  - destruct S as [Hal2 <-].
    assert (Ha2 : (a < next h2)%nat) by (destruct Hext2; lia).
    assert (Hp2 : obj h2 a = page)
      by (destruct Hext2 as [_ O]; now rewrite O).
    destruct (finish_st_sim h2 sst Ha2 Hp2 Hal2) as [Hext3 S3].
    split; [|exact S3].
    apply (extends_trans h h1); [exact Hext|].
    now apply (extends_trans h1 h2).
  - split; [now apply (extends_trans h h1) | exact S].
Qed.

(** What a run returns, read in the store it leaves, is what the
    value-level function returns. *)
Lemma sim_lines_result (h : Heap) (pure : result (list LineImage))
    (run : result (list LineObj) * Heap) :
  sim_lines h pure run ->
  result_map (map (deref (snd run))) (fst run) = pure.
Proof.
  intros [_ S]. destruct pure as [ls|e], (fst run) as [los|e'];
    try contradiction; unfold result_map; cbn [bind].
  - destruct S as [_ <-]. reflexivity.
  - now subst.
Qed.

End StoreFacts.

(** C9. [segment_lines] is a function of the page, and it writes to no
    object it was given: run twice on the same page object, the second
    time in the store the first run left, it returns the same regions
    (the same boxes around the same crops, in the same order, or the same
    exception), which are those of the value-level function; the page and
    every other object of the initial store are unchanged after both
    runs. *)
Theorem segment_lines_repeatable `{lib : ImagingLib} (h : Heap) (a : addr) :
  (a < next h)%nat ->
  let run1 := segment_lines_st a h in
  let run2 := segment_lines_st a (snd run1) in
  result_map (map (deref (snd run1))) (fst run1)
  = result_map (map (deref (snd run2))) (fst run2) /\
  result_map (map bbox_of) (fst run1) = result_map (map bbox_of) (fst run2) /\
  result_map (map (deref (snd run1))) (fst run1) = segment_lines (obj h a) /\
  forall b, (b < next h)%nat ->
            obj (snd run1) b = obj h b /\ obj (snd run2) b = obj h b.
Proof.
  intros Ha run1 run2.
  pose proof (segment_lines_st_sim (obj h a) a h Ha eq_refl) as S1.
  fold run1 in S1.
  pose proof S1 as [[N1 O1] _].
  assert (Ha1 : (a < next (snd run1))%nat) by lia.
  pose proof (segment_lines_st_sim (obj h a) a (snd run1) Ha1 (O1 a Ha))
    as S2.
  fold run2 in S2.
  pose proof S2 as [[N2 O2] _].
  pose proof (sim_lines_result _ _ _ S1) as R1.
  pose proof (sim_lines_result _ _ _ S2) as R2.
  assert (R : result_map (map (deref (snd run1))) (fst run1)
              = result_map (map (deref (snd run2))) (fst run2))
    by now rewrite R1, R2.
  split; [exact R|]. split; [|split; [exact R1|]].
  - apply (f_equal (result_map (map bbox))) in R.
    unfold result_map in R |- *.
    destruct (fst run1), (fst run2); cbn [bind] in *; try congruence.
    rewrite !map_map in R. exact R.
  - intros b Hb. split; [now apply O1|].
    rewrite O2 by lia. now apply O1.
Qed.

Lemma segment_lines_repeatable_witness :
  let h := heap_one page_band in
  let run1 := @segment_lines_st gray_lib 0%nat h in
  let run2 := segment_lines_st 0%nat (snd run1) in
  result_map (map (deref (snd run1))) (fst run1)
  = result_map (map (deref (snd run2))) (fst run2) /\
  result_map (map bbox_of) (fst run1) = result_map (map bbox_of) (fst run2) /\
  result_map (map (deref (snd run1))) (fst run1) = segment_lines (obj h 0%nat) /\
  forall b, (b < next h)%nat ->
            obj (snd run1) b = obj h b /\ obj (snd run2) b = obj h b.
Proof.
  apply (@segment_lines_repeatable gray_lib (heap_one page_band) 0%nat).
  simpl. lia.
Defined.

(** * Further properties of the code *)

(** ** The intervals of a scan are the maximal runs of flagged rows *)

Lemma nth_Z_app_l {A : Type} (l1 l2 : list A) (j : Z) :
  j < len l1 -> nth_Z (l1 ++ l2) j = nth_Z l1 j.
Proof.
  intro Hj. unfold nth_Z. destruct (Z.ltb_spec j 0); [reflexivity|].
  apply nth_error_app1. unfold len in Hj. lia.
Qed.


Lemma run_step_inv (flags pre rest : list bool) (flag : bool) (tr : Trace) :
  flags = pre ++ flag :: rest ->
  trace_inv (len pre) tr -> run_inv flags (len pre) tr ->
  run_inv flags (len pre + 1) (trace_step tr (len pre, flag)).
Proof.
  intros Hf (_ & _ & Ho) (Hr & Hin & Hout & Hcov).
  assert (Hi : nth_Z flags (len pre) = Some flag)
    by (rewrite Hf; apply nth_Z_middle).
  pose proof (len_nonneg pre) as Hpre.
  unfold trace_step, run_inv.
  destruct flag, (t_in_line tr) eqn:E; cbn [andb negb runs t_in_line
                                            t_start_row].
  - (* inside a run *)
    rewrite E. destruct (Hin eq_refl) as [Hfl Hst].
    split; [exact Hr|]. split; [|split; [discriminate|]].
    + intros _. split; [|exact Hst]. intros j Hj.
      destruct (Z.eq_dec j (len pre)) as [->|]; [exact Hi|].
      apply Hfl. lia.
    + intros j Hj Htrue.
      destruct (Z.eq_dec j (len pre)) as [->|Hne].
      * right. split; [reflexivity|]. destruct (Ho eq_refl). lia.
      * apply Hcov; [lia | exact Htrue].
  - (* a run opens *)
    split; [exact Hr|]. split; [|split; [discriminate|]].
    + intros _. split.
      * intros j Hj. replace j with (len pre) by lia. exact Hi.
      * destruct (Hout eq_refl) as [H0|H0]; [left; exact H0 | right; exact H0].
    + intros j Hj Htrue.
      destruct (Z.eq_dec j (len pre)) as [->|Hne].
      * right. split; [reflexivity | lia].
      * destruct (Hcov j) as [Hc|[Hc _]]; [lia | exact Htrue | | discriminate].
        left. exact Hc.
  - (* a run closes *)
    destruct (Hin eq_refl) as [Hfl Hst].
    split; [|split; [discriminate|split]].
    + apply Forall_app. split; [exact Hr|].
      constructor; [|constructor]. cbn [fst snd]. auto.
    + intros _. right. replace (len pre + 1 - 1) with (len pre) by lia.
      exact Hi.
    + intros j Hj Htrue.
      destruct (Z.eq_dec j (len pre)) as [->|Hne]; [congruence|].
      left. destruct (Hcov j) as [(r & Hr1 & Hr2)|[_ Hc]];
        [lia | exact Htrue | |].
      * exists r. split; [apply in_or_app; now left | exact Hr2].
      * exists (t_start_row tr, len pre).
        split; [apply in_or_app; right; now left|]. cbn [fst snd]. lia.
  - (* between runs *)
    rewrite E. split; [exact Hr|]. split; [discriminate|]. split.
    + intros _. right. replace (len pre + 1 - 1) with (len pre) by lia.
      exact Hi.
    + intros j Hj Htrue.
      destruct (Z.eq_dec j (len pre)) as [->|Hne]; [congruence|].
      apply Hcov; [lia | exact Htrue].
Qed.

Lemma run_fold_inv (flags rest : list bool) :
  forall (pre : list bool) (tr : Trace),
    flags = pre ++ rest ->
    trace_inv (len pre) tr -> run_inv flags (len pre) tr ->
    run_inv flags (len flags)
            (fold_left trace_step (enumerate (len pre) rest) tr).
Proof.
  induction rest as [|flag rest IH]; intros pre tr Hf Ht Hr;
    cbn [enumerate fold_left].
  - rewrite app_nil_r in Hf. subst flags. exact Hr.
  - assert (Hf' : flags = (pre ++ [flag]) ++ rest)
      by (rewrite <- app_assoc; exact Hf).
    specialize (IH (pre ++ [flag]) (trace_step tr (len pre, flag)) Hf').
    rewrite len_app in IH. change (len [flag]) with 1 in IH.
    apply IH.
    + apply trace_step_inv; [apply len_nonneg | exact Ht].
    + now apply (run_step_inv flags pre rest).
Qed.

Lemma run_loop_inv (flags : list bool) :
  run_inv flags (len flags) (trace_loop flags).
Proof.
  apply (run_fold_inv flags flags [] trace_init eq_refl).
  - apply trace_init_inv.
  - unfold run_inv, trace_init. cbn [runs t_in_line t_start_row].
    split; [constructor|]. split; [discriminate|].
    split; [now left|]. intros j Hj. change (len (@nil bool)) with 0 in Hj.
    lia.
Qed.

(** Every interval of a scan is a maximal run of flagged rows. *)
Lemma detections_maximal (flags : list bool) :
  Forall (maximal_run flags) (detections flags).
Proof.
  pose proof (detections_bounds flags) as Hb.
  destruct (run_loop_inv flags) as (Hr & Hin & _ & _).
  unfold detections, trace_finish in *.
  assert (Hclosed : Forall (fun r => flagged flags (fst r) (snd r) /\
                                     run_start flags (fst r) /\
                                     run_end flags (snd r))
                      (runs (trace_loop flags))).
  { eapply Forall_impl; [|exact Hr]. intros r (H1 & H2 & H3).
    repeat split; auto. now right. }
  assert (Hall : Forall (fun r => flagged flags (fst r) (snd r) /\
                                  run_start flags (fst r) /\
                                  run_end flags (snd r))
                   (if t_in_line (trace_loop flags)
                    then runs (trace_loop flags) ++
                         [(t_start_row (trace_loop flags), len flags)]
                    else runs (trace_loop flags))).
  { destruct (t_in_line (trace_loop flags)); [|exact Hclosed].
    apply Forall_app. split; [exact Hclosed|].
    destruct (Hin eq_refl) as [H1 H2].
    constructor; [|constructor]. cbn [fst snd].
    repeat split; auto. now left. }
  rewrite Forall_forall in *. intros r Hr'.
  specialize (Hb r Hr'). specialize (Hall r Hr').
  unfold maximal_run. tauto.
Qed.


(** ** What [segment_lines] returns, row by row *)

Section SegmenterExtras.

Context {lib : ImagingLib}.
Variable page : Image.
Hypothesis Hwf : wf_image page.

Lemma segment_lines_inv (ls : list LineImage) :
  segment_lines page = Ok ls ->
  exists flags,
    is_text_row page = Ok flags /\
    len flags = height page /\
    ls = map (region page) (detections flags).
Proof.
  intro E. destruct (is_text_row page) as [flags|e] eqn:Ef.
  - rewrite (segment_lines_detections page Hwf flags Ef) in E.
    injection E as <-. exists flags.
    split; [reflexivity|]. split; [now apply is_text_row_len | reflexivity].
  - unfold segment_lines in E. rewrite Ef in E. discriminate.
Qed.

Lemma page_rows_shape (y1 y2 : Z) :
  0 <= y1 -> y1 <= y2 -> y2 <= height page ->
  wf_image (page_rows page y1 y2) /\
  mode (page_rows page y1 y2) = mode page /\
  width (page_rows page y1 y2) = width page /\
  height (page_rows page y1 y2) = y2 - y1.
Proof.
  intros H0 H1 H2. unfold page_rows, wf_image, height. cbn [rows width mode].
  repeat split.
  - apply Forall_forall. intros r Hr. apply in_firstn, in_skipn in Hr.
    unfold wf_image in Hwf. rewrite Forall_forall in Hwf. now apply Hwf.
  - unfold len. rewrite length_firstn, length_skipn.
    unfold height, len in H2. lia.
Qed.

End SegmenterExtras.



(** X2. Every returned region is the padded box, and the rows of the
    page in it, of a maximal run of flagged rows: rows that are all
    flagged, with no flagged row right above or right below. *)
Theorem regions_are_maximal_runs `{lib : ImagingLib}
    (page : Image) (flags : list bool) :
  wf_image page ->
  is_text_row page = Ok flags ->
  exists ls,
    segment_lines page = Ok ls /\
    Forall (fun l => exists r, maximal_run flags r /\ l = region page r) ls.
Proof.
  intros Hwf Hf. exists (map (region page) (detections flags)).
  split; [now apply segment_lines_detections|].
  apply Forall_map. eapply Forall_impl; [|apply detections_maximal].
  intros r Hr. exists r. split; [exact Hr | reflexivity].
Qed.

Lemma regions_are_maximal_runs_witness :
  exists ls,
    @segment_lines gray_lib page_two_lines = Ok ls /\
    Forall (fun l => exists r,
                maximal_run [true; false; true; false] r /\
                l = region page_two_lines r) ls.
Proof.
  apply (@regions_are_maximal_runs gray_lib page_two_lines).
  - repeat constructor.
  - vm_compute. reflexivity.
Defined.

(** Intervals that are apart and lie in [lo, H] are at most
    [(H + 1 - lo) / 2] many. *)
Lemma apart_count (H : Z) (l : list (Z * Z)) :
  forall lo,
    StronglySorted apart l ->
    Forall (fun r => lo <= fst r /\ fst r < snd r /\ snd r <= H) l ->
    lo <= H + 1 ->
    lo + 2 * len l <= H + 1.
Proof.
  induction l as [|r l IH]; intros lo Hs Hb Hlo.
  - change (len (@nil (Z * Z))) with 0. lia.
  - apply StronglySorted_inv in Hs. destruct Hs as [Hs Hr].
    inversion Hb as [|? ? Hr0 Hb']; subst.
    rewrite len_cons.
    assert (IH' : snd r + 1 + 2 * len l <= H + 1).
    { apply IH; [exact Hs | | lia].
      rewrite Forall_forall in *. intros x Hx.
      specialize (Hr x Hx). specialize (Hb' x Hx). unfold apart in Hr. lia. }
    lia.
Qed.

(** X3. A page of [H] rows gets at most [(H + 1) / 2] regions. *)
Theorem region_count_bound `{lib : ImagingLib}
    (page : Image) (ls : list LineImage) :
  wf_image page ->
  segment_lines page = Ok ls ->
  2 * len ls <= height page + 1.
Proof.
  intros Hwf E.
  destruct (segment_lines_inv page Hwf ls E) as (flags & _ & Hlen & ->).
  rewrite len_map.
  pose proof (apart_count (height page) (detections flags) 0
                (detections_apart flags)) as Hc.
  rewrite <- Hlen in *. pose proof (len_nonneg flags).
  apply Hc; [|lia].
  eapply Forall_impl; [|apply detections_bounds]. simpl. intros r ?. lia.
Qed.

Lemma region_count_bound_witness :
  2 * len [region page_two_lines (0, 1); region page_two_lines (2, 3)]
  <= height page_two_lines + 1.
Proof.
  apply (@region_count_bound gray_lib page_two_lines).
  - repeat constructor.
  - vm_compute. reflexivity.
Defined.

(** X4. Of any two returned regions the earlier one ends no lower than
    the later one ([y2] is non-decreasing), and their boxes overlap by at
    most 5 rows, one less than twice the padding. *)
Theorem padded_overlap_bound `{lib : ImagingLib}
    (page : Image) (ls : list LineImage) :
  wf_image page ->
  segment_lines page = Ok ls ->
  StronglySorted
    (fun a b => y2_of a <= y2_of b /\ y2_of a - y1_of b <= 5) ls.
Proof.
  intros Hwf E.
  destruct (segment_lines_inv page Hwf ls E) as (flags & _ & Hlen & ->).
  apply StronglySorted_map.
  pose proof (detections_bounds flags) as Hb. rewrite Forall_forall in Hb.
  apply (StronglySorted_impl_in apart); [|apply detections_apart].
  intros [s e] [s' e'] Ha Hb'. apply Hb in Ha, Hb'.
  unfold apart, y1_of, y2_of, region, padded, pad.
  cbn [bbox fst snd] in *. lia.
Qed.

Lemma padded_overlap_bound_witness :
  StronglySorted
    (fun a b => y2_of a <= y2_of b /\ y2_of a - y1_of b <= 5)
    [region page_two_lines (0, 1); region page_two_lines (2, 3)].
Proof.
  apply (@padded_overlap_bound gray_lib page_two_lines).
  - repeat constructor.
  - vm_compute. reflexivity.
Defined.

(** X5. The image of every returned region is a well-formed image in the
    mode of the page whose size is that of its box: width [x2 - x1] and
    height [y2 - y1]. *)
Theorem crops_match_boxes `{lib : ImagingLib}
    (page : Image) (ls : list LineImage) :
  wf_image page ->
  segment_lines page = Ok ls ->
  Forall (fun l =>
            let '(x1, y1, x2, y2) := bbox l in
            wf_image (image l) /\ mode (image l) = mode page /\
            width (image l) = x2 - x1 /\ height (image l) = y2 - y1) ls.
Proof.
  intros Hwf E.
  destruct (segment_lines_inv page Hwf ls E) as (flags & _ & Hlen & ->).
  apply Forall_map. eapply Forall_impl; [|apply detections_bounds].
  intros [s e]. rewrite Hlen. cbn [fst snd]. intros (H0 & H1 & H2).
  unfold region, padded, pad. cbn [bbox image fst snd].
  destruct (page_rows_shape page Hwf (Z.max 0 (s - 3))
              (Z.min (height page) (e + 3))) as (Hw & Hm & Hwd & Hh);
    try lia.
  repeat split; try assumption. lia.
Qed.

Lemma crops_match_boxes_witness :
  Forall (fun l =>
            let '(x1, y1, x2, y2) := bbox l in
            wf_image (image l) /\ mode (image l) = mode page_band /\
            width (image l) = x2 - x1 /\ height (image l) = y2 - y1)
         [region page_band (4, 6)].
Proof.
  apply (@crops_match_boxes gray_lib page_band).
  - repeat constructor.
  - vm_compute. reflexivity.
Defined.



(** ** Row sums count ink pixels *)

Lemma ink_count_nonneg (t : Z) (row : list Z) : 0 <= ink_count t row.
Proof. unfold ink_count. apply len_nonneg. Qed.

Lemma ink_count_le (t : Z) (row : list Z) : ink_count t row <= len row.
Proof.
  unfold ink_count, len.
  pose proof (filter_length_le (fun v => negb (v >? t)) row). lia.
Qed.

Lemma ink_count_cons (t v : Z) (row : list Z) :
  ink_count t (v :: row)
  = (if v >? t then 0 else 1) + ink_count t row.
Proof.
  unfold ink_count. cbn [filter]. destruct (v >? t); cbn [negb].
  - lia.
  - rewrite len_cons. lia.
Qed.

(** As long as 255 times the row length fits the accumulator, the sum of
    a mask row is 255 times its number of ink pixels. *)
Lemma sum_mask_row (t : Z) (row : list Z) :
  forall acc,
    0 <= acc -> acc + 255 * len row < 2 ^ 64 ->
    fold_left (fun a v => (a + v) mod 2 ^ 64)
              (map (fun v => if v >? t then 0 else 255) row) acc
    = acc + 255 * ink_count t row.
Proof.
  induction row as [|v row IH]; intros acc H0 Hb; cbn [map fold_left].
  - change (ink_count t []) with 0. lia.
  - rewrite len_cons in Hb. pose proof (len_nonneg row).
    rewrite ink_count_cons.
    destruct (v >? t).
    + rewrite Z.mod_small by lia. rewrite IH by lia. lia.
    + rewrite Z.mod_small by lia. rewrite IH by lia. lia.
Qed.

Lemma mask_sums_count_ink `{lib : ImagingLib} (page : Image) :
  wf_image page ->
  255 * width page < 2 ^ 64 ->
  map sum_u64 (threshold_binary_inv (otsu (gray page)) (gray page))
  = map (fun grow => 255 * ink_count (otsu (gray page)) grow) (gray page).
Proof.
  intros Hwf Hw. unfold threshold_binary_inv.
  rewrite map_map. apply map_ext_in. intros grow Hin.
  assert (Hlen : len grow = width page).
  { unfold gray, convert in Hin. cbn [rows] in Hin.
    rewrite map_map in Hin. apply in_map_iff in Hin.
    destruct Hin as (r & <- & Hr). rewrite !len_map.
    unfold wf_image in Hwf. rewrite Forall_forall in Hwf. now apply Hwf. }
  unfold sum_u64. rewrite sum_mask_row; [lia | lia | lia].
Qed.

(** X7. On a well-formed page whose width times 255 fits 64 bits, the
    row sum of every row is 255 times the number of its pixels that are
    at most the Otsu cut: the accumulator does not wrap. *)
Theorem projection_counts_ink `{lib : ImagingLib} (page : Image)
    (proj : list Z) :
  wf_image page ->
  255 * width page < 2 ^ 64 ->
  projection page = Ok proj ->
  proj = map (fun grow => 255 * ink_count (otsu (gray page)) grow) (gray page).
Proof.
  intros Hwf Hw E. apply projection_inv in E as [_ ->].
  now apply mask_sums_count_ink.
Qed.

Lemma projection_counts_ink_witness :
  [0; 0; 0; 0; 510; 510; 0; 0; 0; 0]
  = map (fun grow => 255 * ink_count (@otsu gray_lib (gray page_band)) grow)
        (gray page_band).
Proof.
  apply (@projection_counts_ink gray_lib page_band).
  - repeat constructor.
  - vm_compute. reflexivity.
  - vm_compute. reflexivity.
Defined.

(** ** binary64: the value of a rounded result *)

(** A 53-bit significand in the normal range is kept as it is. *)
Lemma binary_round_aux_exact (mx : positive) (ex : Z) :
  Zpos (digits2_pos mx) = 53 -> -1074 <= ex <= 971 ->
  binary_round_aux F64.prec F64.emax false (Zpos mx) ex loc_Exact
  = S754_finite false mx ex.
Proof.
  intros Dm He. unfold binary_round_aux, shr_fexp.
  assert (E0 : fexp F64.prec F64.emax (Zdigits2 (Zpos mx) + ex) - ex = 0).
  { cbn [Zdigits2]. rewrite Dm. unfold fexp, emin, F64.prec, F64.emax. lia. }
  rewrite E0. cbn [shr shr_record_of_loc shr_m loc_of_shr_record
                   round_nearest_even].
  rewrite E0. cbn [shr shr_record_of_loc shr_m].
  assert (Hle : (ex <=? F64.emax - F64.prec) = true)
    by (apply Z.leb_le; unfold F64.emax, F64.prec; lia).
  now rewrite Hle.
Qed.

(** The value of a rounded result: the significand cut to 53 bits, or
    that plus one, at the exponent of the cut. *)
Lemma binary_round_aux_value (mx : positive) (ex : Z) :
  53 <= Zpos (digits2_pos mx) ->
  -1074 <= Zpos (digits2_pos mx) + ex - 53 ->
  Zpos (digits2_pos mx) + ex - 52 <= 971 ->
  exists m e m2,
    binary_round_aux F64.prec F64.emax false (Zpos mx) ex loc_Exact
    = S754_finite false m e /\
    Zpos (digits2_pos m) = 53 /\
    Zpos mx / 2 ^ (Zpos (digits2_pos mx) - 53) <= m2 /\
    m2 <= Zpos mx / 2 ^ (Zpos (digits2_pos mx) - 53) + 1 /\
    0 <= e - (ex + (Zpos (digits2_pos mx) - 53)) <= 1 /\
    Zpos m * 2 ^ (e - (ex + (Zpos (digits2_pos mx) - 53))) = m2.
Proof.
  intros Hd Hmin Hmax. unfold binary_round_aux.
  destruct (shr_fexp_shape mx ex Hd Hmin) as [Hm1 He1].
  destruct (shr_fexp F64.prec F64.emax (Zpos mx) ex loc_Exact)
    as [mrs1 e1].
  cbn [fst snd] in Hm1, He1.
  pose proof (leading_53 (Zpos mx) _ Hd (digits2_bounds mx)) as B1.
  rewrite <- Hm1 in B1 |- *. rewrite <- He1.
  pose proof (round_nearest_even_range (shr_m mrs1)
                (loc_of_shr_record mrs1)) as R.
  destruct (round_nearest_even (shr_m mrs1) (loc_of_shr_record mrs1))
    as [|p2|p2]; [lia| |lia].
  assert (D2lo : 52 < Zpos (digits2_pos p2)) by (apply digits2_gt; lia).
  assert (D2hi : Zpos (digits2_pos p2) <= 54) by (apply digits2_le; lia).
  assert (Hd2 : 53 <= Zpos (digits2_pos p2)) by lia.
  assert (Hmin2 : -1074 <= Zpos (digits2_pos p2) + e1 - 53) by lia.
  destruct (shr_fexp_shape p2 e1 Hd2 Hmin2) as [Hm3 He3].
  destruct (shr_fexp F64.prec F64.emax (Zpos p2) e1 loc_Exact)
    as [mrs3 e3].
  cbn [fst snd] in Hm3, He3.
  pose proof (leading_53 (Zpos p2) _ Hd2 (digits2_bounds p2)) as B3.
  rewrite <- Hm3 in B3.
  destruct (shr_m mrs3) as [|p3|p3]; [lia| |lia].
  assert (Hle : (e3 <=? F64.emax - F64.prec) = true).
  { apply Z.leb_le. unfold F64.emax, F64.prec. lia. }
  rewrite Hle. exists p3, e3, (Zpos p2).
  split; [reflexivity|].
  split; [apply digits2_unique; exact B3|].
  split; [lia|]. split; [lia|]. split; [lia|].
  replace (e3 - e1) with (Zpos (digits2_pos p2) - 53) by lia.
  destruct (Z.eq_dec (Zpos (digits2_pos p2)) 53) as [E|E].
  - rewrite E in Hm3 |- *. change (2 ^ (53 - 53)) with 1 in *.
    rewrite Z.div_1_r in Hm3. lia.
  - assert (E54 : Zpos (digits2_pos p2) = 54) by lia.
    pose proof (digits2_bounds p2) as [Blo _]. rewrite E54 in Blo, Hm3 |- *.
    change (2 ^ (54 - 1)) with (2 ^ 53) in Blo.
    assert (Ep : Zpos p2 = 2 ^ 53) by lia.
    rewrite Ep in Hm3 |- *. change (2 ^ (54 - 53)) with 2 in *.
    change (2 ^ 53 / 2) with (2 ^ 52) in Hm3. rewrite Hm3. reflexivity.
Qed.

(** The conversion of a positive integer below [2^53] is exact. *)
Lemma of_Z_exact (n : Z) :
  0 < n < 2 ^ 53 ->
  exists m a,
    F64.of_Z n = S754_finite false m (- a) /\
    Zpos (digits2_pos m) = 53 /\ 0 <= a <= 52 /\
    Zpos m = n * 2 ^ a.
Proof.
  intros [Hlo Hhi]. destruct n as [|p|p]; try lia.
  unfold F64.of_Z, binary_normalize, binary_round, shl_align.
  pose proof (digits2_bounds p) as [Dlo Dhi].
  assert (D53 : Zpos (digits2_pos p) <= 53) by (apply digits2_le; lia).
  set (d := Zpos (digits2_pos p)) in *.
  assert (Hd : 0 < d) by (unfold d; lia).
  assert (Ef : fexp F64.prec F64.emax (d + 0) = d - 53)
    by (unfold fexp, emin, F64.prec, F64.emax; lia).
  rewrite Ef. rewrite Z.sub_0_r.
  destruct (d - 53) as [|q|q] eqn:Eq; [| lia |].
  - exists p, 0. rewrite binary_round_aux_exact by (fold d; lia).
    repeat split; try (fold d); try lia.
  - assert (Hq : Zpos q = 53 - d) by lia.
    assert (Dz : Zpos (digits2_pos (Pos.iter xO p q)) = 53).
    { apply digits2_unique. rewrite iter_xO_value, Hq.
      assert (0 < 2 ^ (53 - d)) by (apply Z.pow_pos_nonneg; lia).
      assert (E1 : 2 ^ (53 - 1) = 2 ^ (d - 1) * 2 ^ (53 - d)).
      { rewrite <- Z.pow_add_r by lia. f_equal. lia. }
      assert (E2 : 2 ^ 53 = 2 ^ d * 2 ^ (53 - d)).
      { rewrite <- Z.pow_add_r by lia. f_equal. lia. }
      rewrite E1, E2. split.
      - apply Z.mul_le_mono_nonneg_r; lia.
      - apply Z.mul_lt_mono_pos_r; lia. }
    exists (Pos.iter xO p q), (Zpos q).
    rewrite binary_round_aux_exact by (try exact Dz; lia).
    split; [reflexivity|]. split; [exact Dz|]. split; [lia|].
    apply iter_xO_value.
Qed.

(** Two normal numbers compare as their values do; [k] clears the
    negative exponents. *)
Lemma ltb_canonical (m1 m2 : positive) (e1 e2 k : Z) :
  Zpos (digits2_pos m1) = 53 -> Zpos (digits2_pos m2) = 53 ->
  0 <= e1 + k -> 0 <= e2 + k ->
  SFltb (S754_finite false m1 e1) (S754_finite false m2 e2)
  = (Zpos m1 * 2 ^ (e1 + k) <? Zpos m2 * 2 ^ (e2 + k)).
Proof.
  intros D1 D2 K1 K2.
  pose proof (digits2_bounds m1) as B1. rewrite D1 in B1.
  pose proof (digits2_bounds m2) as B2. rewrite D2 in B2.
  change (2 ^ (53 - 1)) with (2 ^ 52) in *.
  unfold SFltb, SFcompare.
  destruct (Z.compare_spec e1 e2) as [E|E|E].
  - subst e2. rewrite Pos.compare_cont_spec. cbn [Pos.switch_Eq].
    assert (Hp : 0 < 2 ^ (e1 + k)) by (apply Z.pow_pos_nonneg; lia).
    destruct (Pos.compare_spec m1 m2) as [C|C|C]; symmetry.
    + subst. apply Z.ltb_irrefl.
    + apply Z.ltb_lt. apply Z.mul_lt_mono_pos_r; [exact Hp | lia].
    + apply Z.ltb_ge. apply Z.mul_le_mono_nonneg_r; lia.
  - symmetry. apply Z.ltb_lt.
    assert (Hp : 0 < 2 ^ (e1 + k)) by (apply Z.pow_pos_nonneg; lia).
    assert (E2 : 2 ^ (e2 + k) = 2 ^ (e1 + k) * 2 ^ (e2 - e1)).
    { rewrite <- Z.pow_add_r by lia. f_equal. lia. }
    assert (Hq : 2 <= 2 ^ (e2 - e1)).
    { change 2 with (2 ^ 1) at 1. apply Z.pow_le_mono_r; lia. }
    rewrite E2. nia.
  - symmetry. apply Z.ltb_ge.
    assert (Hp : 0 < 2 ^ (e2 + k)) by (apply Z.pow_pos_nonneg; lia).
    assert (E1 : 2 ^ (e1 + k) = 2 ^ (e2 + k) * 2 ^ (e1 - e2)).
    { rewrite <- Z.pow_add_r by lia. f_equal. lia. }
    assert (Hq : 2 <= 2 ^ (e1 - e2)).
    { change 2 with (2 ^ 1) at 1. apply Z.pow_le_mono_r; lia. }
    rewrite E1. nia.
Qed.

(** ** Which rows are flagged *)

(** Whether a cut-and-maybe-bumped product [m2] is below [p * C] is
    whether the maximum is below ten times [p]. *)
Lemma tenth_cut (mx p A Q C m2 : Z) :
  0 < p -> 0 < mx -> 2 <= A -> 0 < Q <= 2 ^ 53 -> 0 <= C ->
  C * Q = A * 2 ^ 56 ->
  mx * A < 2 ^ 53 ->
  (mx * A * 7205759403792794) / Q <= m2 ->
  m2 <= (mx * A * 7205759403792794) / Q + 1 ->
  (m2 <? p * C) = (mx <? 10 * p).
Proof.
  intros Hp Hmx HA HQ HC HCQ HM Hlo Hhi.
  set (Mz := mx * A) in *. set (W := p * A).
  assert (HW : Q * (p * C) = W * 2 ^ 56).
  { unfold W. replace (Q * (p * C)) with (p * (C * Q)) by ring.
    rewrite HCQ. ring. }
  pose proof (Z.mul_div_le (Mz * 7205759403792794) Q) as D1.
  pose proof (Z.mod_pos_bound (Mz * 7205759403792794) Q) as D2.
  pose proof (Z.div_mod (Mz * 7205759403792794) Q) as D3.
  destruct (Z.ltb_spec mx (10 * p)) as [Hlt|Hge].
  - apply Z.ltb_lt.
    destruct (Z.lt_ge_cases m2 (p * C)) as [Hok|Hbad]; [exact Hok|exfalso].
    assert (H1 : Q * (p * C) <= Q * m2)
      by (apply Z.mul_le_mono_nonneg_l; lia).
    assert (H2 : Q * m2 <= Q * ((Mz * 7205759403792794) / Q) + Q) by nia.
    assert (H3 : Mz + A <= 10 * W) by (unfold Mz, W; nia).
    lia.
  - apply Z.ltb_ge.
    assert (H3 : 10 * W <= Mz) by (unfold Mz, W; nia).
    assert (H4 : p * C <= (Mz * 7205759403792794) / Q).
    { apply Z.div_le_lower_bound; [lia|]. rewrite HW. lia. }
    lia.
Qed.

(** On row sums below [2^52], a row sum exceeds the threshold exactly
    when ten times the sum exceeds the maximum. *)
Lemma gtb_tenth_iff (p mx : Z) :
  0 <= p < 2 ^ 53 -> 0 <= mx < 2 ^ 52 ->
  F64.gtb (F64.of_Z p) (F64.mul (F64.of_Z mx) F64.tenth) = (mx <? 10 * p).
Proof.
  intros Hp Hmx.
  destruct (Z.eq_dec mx 0) as [->|Hmx0].
  { destruct (Z.eq_dec p 0) as [->|Hp0]; [reflexivity|].
    destruct (of_Z_exact p) as (P & b & -> & _); [lia|].
    symmetry. apply Z.ltb_lt. lia. }
  destruct (of_Z_exact mx) as (M & a & -> & DM & Ha & EM); [lia|].
  pose proof (digits2_bounds M) as BM. rewrite DM in BM.
  change (2 ^ (53 - 1)) with (2 ^ 52) in BM.
  assert (Ha1 : 1 <= a).
  { destruct (Z.eq_dec a 0) as [->|]; [|lia]. change (2 ^ 0) with 1 in EM.
    lia. }
  unfold F64.mul, F64.tenth, SFmul. cbn [xorb].
  set (t := 7205759403792794%positive).
  assert (Bp : 2 ^ 104 <= Zpos (M * t) < 2 ^ 106).
  { rewrite Pos2Z.inj_mul. unfold t. change (2 ^ 104) with (2 ^ 52 * 2 ^ 52).
    change (2 ^ 106) with (2 ^ 53 * 2 ^ 53). nia. }
  assert (Dlo : 104 < Zpos (digits2_pos (M * t)))
    by (apply digits2_gt; lia).
  assert (Dhi : Zpos (digits2_pos (M * t)) <= 106)
    by (apply digits2_le; lia).
  destruct (binary_round_aux_value (M * t) (- a + -56))
    as (m & e & m2 & -> & Dm & Hlo & Hhi & He & Em); try lia.
  set (n := Zpos (digits2_pos (M * t)) - 53) in *.
  destruct (Z.eq_dec p 0) as [->|Hp0].
  { assert (E : F64.gtb (F64.of_Z 0) (S754_finite false m e) = false)
      by reflexivity.
    rewrite E. symmetry. apply Z.ltb_ge. lia. }
  destruct (of_Z_exact p) as (P & b & -> & DP & Hb & EP).
  { split; [lia|]. lia. }
  unfold F64.gtb.
  rewrite (ltb_canonical m P e (- b) 1200) by (try assumption; lia).
  set (c := a + 56 - n).
  assert (E1 : Zpos m * 2 ^ (e + 1200) = m2 * 2 ^ (1200 - c)).
  { rewrite <- Em, <- Z.mul_assoc, <- Z.pow_add_r by (unfold c; lia).
    do 2 f_equal. unfold c. lia. }
  assert (E2 : Zpos P * 2 ^ (- b + 1200) = p * 2 ^ c * 2 ^ (1200 - c)).
  { rewrite EP, <- !Z.mul_assoc, <- !Z.pow_add_r by (unfold c; lia).
    do 2 f_equal. unfold c. lia. }
  rewrite E1, E2.
  assert (Hpow : 0 < 2 ^ (1200 - c))
    by (apply Z.pow_pos_nonneg; unfold c; lia).
  assert (Hswap : (m2 * 2 ^ (1200 - c) <? p * 2 ^ c * 2 ^ (1200 - c))
                  = (m2 <? p * 2 ^ c)).
  { destruct (Z.ltb_spec m2 (p * 2 ^ c)) as [H|H].
    - apply Z.ltb_lt. apply Z.mul_lt_mono_pos_r; assumption.
    - apply Z.ltb_ge. apply Z.mul_le_mono_nonneg_r; lia. }
  rewrite Hswap.
  assert (HA : 2 <= 2 ^ a).
  { change 2 with (2 ^ 1) at 1. apply Z.pow_le_mono_r; lia. }
  assert (HQ : 0 < 2 ^ n <= 2 ^ 53).
  { split; [apply Z.pow_pos_nonneg; unfold n; lia|].
    apply Z.pow_le_mono_r; unfold n; lia. }
  assert (HC : 0 <= 2 ^ c) by (apply Z.pow_nonneg; lia).
  assert (HCQ : 2 ^ c * 2 ^ n = 2 ^ a * 2 ^ 56).
  { rewrite <- !Z.pow_add_r by (unfold c, n; lia). f_equal. unfold c. lia. }
  assert (HM : mx * 2 ^ a < 2 ^ 53) by (rewrite <- EM; lia).
  rewrite Pos2Z.inj_mul, EM in Hlo, Hhi.
  apply (tenth_cut mx p (2 ^ a) (2 ^ n) (2 ^ c) m2);
    try assumption; lia.
Qed.

Lemma projection_bound `{lib : ImagingLib} (page : Image) (proj : list Z) :
  wf_image page -> 255 * width page < 2 ^ 64 ->
  projection page = Ok proj ->
  Forall (fun p => 0 <= p <= 255 * width page) proj.
Proof.
  intros Hwf Hw E. apply projection_inv in E as [_ ->].
  rewrite (mask_sums_count_ink page Hwf Hw).
  apply Forall_map. apply Forall_forall. intros grow Hin.
  assert (Hlen : len grow = width page).
  { unfold gray, convert in Hin. cbn [rows] in Hin.
    rewrite map_map in Hin. apply in_map_iff in Hin.
    destruct Hin as (r & <- & Hr). rewrite !len_map.
    unfold wf_image in Hwf. rewrite Forall_forall in Hwf. now apply Hwf. }
  pose proof (ink_count_nonneg (otsu (gray page)) grow).
  pose proof (ink_count_le (otsu (gray page)) grow). lia.
Qed.

(** X8. On a well-formed page whose width times 255 is below [2^52], a
    row is flagged exactly when ten times its row sum exceeds the largest
    row sum: the binary64 product and comparison agree with the exact
    ones. *)
Theorem flagged_iff_tenth_of_max `{lib : ImagingLib} (page : Image)
    (proj : list Z) (mx : Z) :
  wf_image page ->
  255 * width page < 2 ^ 52 ->
  projection page = Ok proj ->
  array_max proj = Ok mx ->
  is_text_row page = Ok (map (fun p => mx <? 10 * p) proj).
Proof.
  intros Hwf Hw Hproj Hmax.
  assert (Hw64 : 255 * width page < 2 ^ 64) by lia.
  pose proof (projection_bound page proj Hwf Hw64 Hproj) as Hb.
  rewrite Forall_forall in Hb.
  destruct (array_max_spec _ _ Hmax) as [Hin _].
  pose proof (Hb mx Hin) as Hmx.
  unfold is_text_row, flags_of, thresh_of. rewrite Hproj. cbn [bind].
  rewrite Hmax. cbn [bind].
  f_equal. apply map_ext_in. intros p Hp. specialize (Hb p Hp).
  apply gtb_tenth_iff; lia.
Qed.

Lemma flagged_iff_tenth_of_max_witness :
  @is_text_row gray_lib page_band
  = Ok (map (fun p => 510 <? 10 * p) [0; 0; 0; 0; 510; 510; 0; 0; 0; 0]).
Proof.
  apply (@flagged_iff_tenth_of_max gray_lib page_band
           [0; 0; 0; 0; 510; 510; 0; 0; 0; 0] 510).
  - repeat constructor.
  - vm_compute. reflexivity.
  - vm_compute. reflexivity.
  - vm_compute. reflexivity.
Defined.

(** ** More on the page loop of the engine *)

(** A stripped text neither starts nor ends with whitespace. *)
Lemma strip_ends (s : pystr) :
  (forall c s', strip s = c :: s' -> isspace c = false) /\
  (forall s' c, strip s = s' ++ [c] -> isspace c = false).
Proof.
  unfold strip, rstrip. split.
  - intros c s' E. destruct (lstrip s) as [|c0 u] eqn:Eu;
      [discriminate|].
    pose proof (lstrip_head s c0 u Eu) as Hc0.
    cbn [rev] in E.
    destruct (lstrip_keeps_last (rev u) c0 Hc0) as [w Hw].
    rewrite Hw, rev_app_distr in E. cbn [rev app] in E.
    injection E as <- _. exact Hc0.
  - intros s' c E. apply (f_equal (@rev N)) in E.
    rewrite rev_involutive, rev_app_distr in E. cbn [rev app] in E.
    exact (lstrip_head _ _ _ E).
Qed.

(** X9. In the output of [ocr_pages] every line record has a text that
    is not empty and neither starts nor ends with whitespace. *)
Theorem output_texts_stripped `{lib : ImagingLib}
    (decode : Image -> pystr)
    (pages : list Image) (lss : list (list LineImage)) :
  Forall2 (fun p ls => segment_lines p = Ok ls) pages lss ->
  exists out,
    ocr_pages decode pages = Ok out /\
    Forall (fun pd =>
              Forall (fun d =>
                        k_text d <> [] /\
                        (forall c s, k_text d = c :: s -> isspace c = false) /\
                        (forall s c, k_text d = s ++ [c] ->
                                     isspace c = false))
                     (k_lines pd)) out.
Proof.
  intro H. eexists. split; [apply ocr_pages_spec; exact H|].
  apply Forall_map. apply Forall_forall. intros [i ls] _.
  unfold page_dict. cbn [k_lines snd]. apply Forall_map.
  apply Forall_forall. intros l Hl. apply filter_In in Hl.
  destruct Hl as [_ Hk]. unfold kept in Hk.
  assert (Et : k_text (line_dict decode l) = _recognize_line decode (image l)).
  { unfold line_dict. now destruct (bbox l) as [[[x1 y1] x2] y2]. }
  rewrite Et. split.
  - intro E. rewrite E in Hk. discriminate.
  - unfold _recognize_line. cbv zeta. apply strip_ends.
Qed.

Lemma output_texts_stripped_witness :
  exists out,
    @ocr_pages gray_lib decode_hi [page_band] = Ok out /\
    Forall (fun pd =>
              Forall (fun d =>
                        k_text d <> [] /\
                        (forall c s, k_text d = c :: s -> isspace c = false) /\
                        (forall s c, k_text d = s ++ [c] ->
                                     isspace c = false))
                     (k_lines pd)) out.
Proof.
  apply (@output_texts_stripped gray_lib decode_hi [page_band]
           [[region page_band (4, 6)]]).
  constructor; [vm_compute; reflexivity | constructor].
Defined.

(** X10. When the segmentation of a page raises, [ocr_pages] raises the
    same exception, whatever the pages after it are, and returns nothing
    of the pages before it. *)
Theorem first_failing_page_raises `{lib : ImagingLib}
    (decode : Image -> pystr)
    (ps qs : list Image) (p : Image) (lss : list (list LineImage))
    (e : exn) :
  Forall2 (fun p ls => segment_lines p = Ok ls) ps lss ->
  segment_lines p = Raise e ->
  ocr_pages decode (ps ++ p :: qs) = Raise e.
Proof.
  intros H Hp. unfold ocr_pages.
  rewrite enumerate_app, foldM_app, (page_loop decode ps lss 1 [] H).
  cbn [bind enumerate foldM]. unfold page_step at 1. now rewrite Hp.
Qed.

Lemma first_failing_page_raises_witness :
  @ocr_pages gray_lib decode_hi ([page_band] ++ gray_page [] 2 :: [page_tail])
  = Raise AttributeError_None_sum.
Proof.
  apply (@first_failing_page_raises gray_lib decode_hi
           [page_band] [page_tail] (gray_page [] 2)
           [[region page_band (4, 6)]]).
  - constructor; [vm_compute; reflexivity | constructor].
  - reflexivity.
Defined.

Lemma enumerate_shift {A : Type} (l : list A) :
  forall i k,
    enumerate (i + k) l = map (fun x => (fst x + k, snd x)) (enumerate i l).
Proof.
  induction l as [|a l IH]; intros i k; cbn [enumerate map fst snd];
    [reflexivity|].
  f_equal. rewrite <- IH. f_equal. lia.
Qed.

(** X11. The output for two batches of pages in one call is the output
    for the first batch followed by that for the second, with its page
    numbers moved up by the size of the first. *)
Theorem ocr_pages_app `{lib : ImagingLib}
    (decode : Image -> pystr)
    (ps qs : list Image) (lss lss' : list (list LineImage)) :
  Forall2 (fun p ls => segment_lines p = Ok ls) ps lss ->
  Forall2 (fun p ls => segment_lines p = Ok ls) qs lss' ->
  exists o1 o2,
    ocr_pages decode ps = Ok o1 /\
    ocr_pages decode qs = Ok o2 /\
    ocr_pages decode (ps ++ qs)
    = Ok (o1 ++ map (fun pd => {| k_page := k_page pd + len ps;
                                  k_lines := k_lines pd |}) o2).
Proof.
  intros H1 H2.
  exists (map (page_dict decode) (enumerate 1 lss)),
         (map (page_dict decode) (enumerate 1 lss')).
  split; [now apply ocr_pages_spec|]. split; [now apply ocr_pages_spec|].
  rewrite (ocr_pages_spec decode (ps ++ qs) (lss ++ lss'))
    by (now apply Forall2_app).
  rewrite enumerate_app, map_app. do 2 f_equal.
  assert (Hl : len lss = len ps)
    by (unfold len; now rewrite (Forall2_length H1)).
  rewrite Hl, enumerate_shift, !map_map. apply map_ext.
  intros [i ls]. reflexivity.
Qed.

Lemma ocr_pages_app_witness :
  exists o1 o2,
    @ocr_pages gray_lib decode_hi [page_band] = Ok o1 /\
    ocr_pages decode_hi [page_tail] = Ok o2 /\
    ocr_pages decode_hi ([page_band] ++ [page_tail])
    = Ok (o1 ++ map (fun pd => {| k_page := k_page pd + len [page_band];
                                  k_lines := k_lines pd |}) o2).
Proof.
  apply (@ocr_pages_app gray_lib decode_hi [page_band] [page_tail]
           [[region page_band (4, 6)]] [[region page_tail (2, 3)]]).
  - constructor; [vm_compute; reflexivity | constructor].
  - constructor; [vm_compute; reflexivity | constructor].
Defined.

(** ** The page loop of the page-level engine *)

Section EasyOcrFacts.

Context {lib : ImagingLib}.
Variables Box Conf : Type.
Variable readtext : Image -> list (Box * pystr * Conf).

Lemma easy_page_loop (images : list Image) :
  forall (i : Z) (acc : list TextPageDict),
    fold_left (EasyOcrEngine.page_step Box Conf readtext)
              (enumerate i images) acc
    = acc ++ map (fun x => {| t_page := fst x;
                              t_text := join [newline]
                                          (EasyOcrEngine.texts Box Conf
                                             readtext (snd x)) |})
                 (enumerate i images).
Proof.
  induction images as [|img images IH]; intros i acc;
    cbn [enumerate fold_left map].
  - now rewrite app_nil_r.
  - rewrite IH. unfold EasyOcrEngine.page_step at 1. cbv zeta.
    rewrite <- app_assoc. reflexivity.
Qed.

End EasyOcrFacts.

Lemma split_newline_line (x : pystr) :
  ~ In newline x -> split_newline x = [x].
Proof.
  induction x as [|c x IH]; intro Hn; cbn [split_newline]; [reflexivity|].
  destruct (N.eqb_spec c newline) as [->|_]; [exfalso; apply Hn; now left|].
  rewrite IH; [reflexivity|]. intro H. apply Hn. now right.
Qed.

Lemma split_newline_app (x s : pystr) :
  ~ In newline x ->
  split_newline (x ++ newline :: s) = x :: split_newline s.
Proof.
  induction x as [|c x IH]; intro Hn; cbn [app split_newline].
  - now rewrite N.eqb_refl.
  - destruct (N.eqb_spec c newline) as [->|_];
      [exfalso; apply Hn; now left|].
    rewrite IH; [reflexivity|]. intro H. apply Hn. now right.
Qed.

(** Splitting the joined texts at the line feeds gives the texts back. *)
Lemma split_join (l : list pystr) :
  l <> [] -> Forall (fun t => ~ In newline t) l ->
  split_newline (join [newline] l) = l.
Proof.
  induction l as [|x l IH]; intros Hne Hall; [congruence|].
  inversion Hall as [|? ? Hx Hl]; subst. cbn [join].
  destruct l as [|y l]; [now apply split_newline_line|].
  cbn [app]. rewrite split_newline_app by exact Hx.
  f_equal. apply IH; [discriminate | exact Hl].
Qed.

(** X12. [EasyOcrEngine.ocr_pages] returns one dict per image, in order,
    numbered from 1, whose text is the texts found on the image joined by
    line feeds; an image on which nothing is found is there with an empty
    text. *)
Theorem easy_pages_numbered `{lib : ImagingLib} (Box Conf : Type)
    (readtext : Image -> list (Box * pystr * Conf))
    (images : list Image) (k : nat) (img : Image) :
  nth_error images k = Some img ->
  length (EasyOcrEngine.ocr_pages Box Conf readtext images) = length images /\
  nth_error (EasyOcrEngine.ocr_pages Box Conf readtext images) k
  = Some {| t_page := 1 + Z.of_nat k;
            t_text := join [newline]
                        (EasyOcrEngine.texts Box Conf readtext img) |} /\
  (readtext img = [] ->
   nth_error (EasyOcrEngine.ocr_pages Box Conf readtext images) k
   = Some {| t_page := 1 + Z.of_nat k; t_text := [] |}).
Proof.
  intro Hk. unfold EasyOcrEngine.ocr_pages. rewrite easy_page_loop.
  cbn [app].
  assert (Hn : nth_error
                 (map (fun x => {| t_page := fst x;
                                   t_text := join [newline]
                                     (EasyOcrEngine.texts Box Conf readtext
                                        (snd x)) |})
                      (enumerate 1 images)) k
               = Some {| t_page := 1 + Z.of_nat k;
                         t_text := join [newline]
                           (EasyOcrEngine.texts Box Conf readtext img) |}).
  { rewrite (map_nth_error _ _ _ (nth_error_enumerate images 1 k img Hk)).
    reflexivity. }
  split; [now rewrite length_map, length_enumerate|].
  split; [exact Hn|].
  intro He. rewrite Hn. unfold EasyOcrEngine.texts. now rewrite He.
Qed.

Lemma easy_pages_numbered_witness :
  length (@EasyOcrEngine.ocr_pages gray_lib unit unit read_nothing
            [page_band; page_blank]) = 2%nat /\
  nth_error (EasyOcrEngine.ocr_pages unit unit read_nothing
               [page_band; page_blank]) 1
  = Some {| t_page := 1 + Z.of_nat 1;
            t_text := join [newline]
                        (EasyOcrEngine.texts unit unit read_nothing
                           page_blank) |} /\
  (read_nothing page_blank = [] ->
   nth_error (EasyOcrEngine.ocr_pages unit unit read_nothing
                [page_band; page_blank]) 1
   = Some {| t_page := 1 + Z.of_nat 1; t_text := [] |}).
Proof.
  apply (@easy_pages_numbered gray_lib unit unit read_nothing
           [page_band; page_blank] 1%nat page_blank).
  reflexivity.
Defined.

(** X13. When something is found on an image and no text found has a
    line feed in it, splitting the text of its dict at the line feeds
    gives back the texts found, in order: the page text loses nothing. *)
Theorem easy_page_text_splits `{lib : ImagingLib} (Box Conf : Type)
    (readtext : Image -> list (Box * pystr * Conf))
    (images : list Image) (k : nat) (img : Image) :
  nth_error images k = Some img ->
  readtext img <> [] ->
  Forall (fun t => ~ In newline t)
         (EasyOcrEngine.texts Box Conf readtext img) ->
  exists d,
    nth_error (EasyOcrEngine.ocr_pages Box Conf readtext images) k = Some d /\
    split_newline (t_text d) = EasyOcrEngine.texts Box Conf readtext img.
Proof.
  intros Hk Hne Hall.
  destruct (easy_pages_numbered Box Conf readtext images k img Hk)
    as (_ & Hn & _).
  eexists. split; [exact Hn|]. cbn [t_text].
  apply split_join; [|exact Hall].
  unfold EasyOcrEngine.texts. destruct (readtext img); [congruence|].
  discriminate.
Qed.

Lemma easy_page_text_splits_witness :
  exists d,
    nth_error (@EasyOcrEngine.ocr_pages gray_lib unit unit read_two_words
                 [page_band]) 0 = Some d /\
    split_newline (t_text d)
    = EasyOcrEngine.texts unit unit read_two_words page_band.
Proof.
  apply (@easy_page_text_splits gray_lib unit unit read_two_words
           [page_band] 0%nat page_band).
  - reflexivity.
  - discriminate.
  - repeat constructor; cbn; intros H;
      repeat (destruct H as [H|H]; [discriminate|]); exact H.
Defined.

(** ** [upscale]: the size asked of [resize] *)

Lemma in_zrange (n : nat) :
  forall lo x, In x (zrange lo n) <-> lo <= x < lo + Z.of_nat n.
Proof.
  induction n as [|n IH]; intros lo x; cbn [zrange In].
  - lia.
  - rewrite IH. lia.
Qed.

Lemma len_zrange (n : nat) : forall lo, len (zrange lo n) = Z.of_nat n.
Proof.
  induction n as [|n IH]; intro lo; cbn [zrange]; [reflexivity|].
  rewrite len_cons, IH. lia.
Qed.

(** For every height from 1 to 1499 the scale to 1500 is a normal number
    between 1 and 2048 and the scaled height is 1499 or 1500. *)
Lemma scale_1500_table (h : Z) :
  1 <= h < 1500 -> scale_1500_ok h = true.
Proof.
  intro Hh.
  assert (Hall : forallb scale_1500_ok (zrange 1 1499) = true)
    by (vm_compute; reflexivity).
  rewrite forallb_forall in Hall. apply Hall. apply in_zrange. lia.
Qed.

(** Truncation does not go below an integer that the number is at least. *)
Lemma to_int_ge (m : positive) (e w K : Z) :
  0 <= K -> 0 <= e + K ->
  w * 2 ^ K <= Zpos m * 2 ^ (e + K) ->
  exists z, PyFloat.to_int (S754_finite false m e) = Returns z /\ w <= z.
Proof.
  intros HK HeK Hle. unfold PyFloat.to_int.
  destruct e as [|q|q]; eexists; (split; [reflexivity|]).
  - rewrite Z.add_0_l in Hle. change (2 ^ 0) with 1. rewrite Z.mul_1_r.
    assert (0 < 2 ^ K) by (apply Z.pow_pos_nonneg; lia). nia.
  - rewrite Z.pow_add_r in Hle by lia.
    assert (0 < 2 ^ K) by (apply Z.pow_pos_nonneg; lia).
    assert (0 < 2 ^ Zpos q) by (apply Z.pow_pos_nonneg; lia). nia.
  - apply Z.div_le_lower_bound; [apply Z.pow_pos_nonneg; lia|].
    assert (E : 2 ^ K = 2 ^ Zpos q * 2 ^ (Zneg q + K)).
    { rewrite <- Z.pow_add_r by lia. f_equal. lia. }
    rewrite E in Hle.
    assert (0 < 2 ^ (Zneg q + K)) by (apply Z.pow_pos_nonneg; lia).
    nia.
Qed.

(** Scaling an integer by a normal number that is at least 1 and
    truncating does not make it smaller. *)
Lemma int_mul_to_int_ge (w : Z) (m : positive) (e : Z) :
  1 <= w < 2 ^ 53 ->
  Zpos (digits2_pos m) = 53 -> -52 <= e <= -42 ->
  exists w',
    and_then (PyFloat.int_mul w (S754_finite false m e)) PyFloat.to_int
    = Returns w' /\ w <= w'.
Proof.
  intros Hw Dm He.
  destruct (of_Z_exact w) as (Wm & a & EW & DW & Ha & EWm); [lia|].
  unfold PyFloat.int_mul, PyFloat.of_int. rewrite EW. cbn [and_then].
  unfold F64.mul, SFmul. cbn [xorb].
  pose proof (digits2_bounds m) as Bm. rewrite Dm in Bm.
  pose proof (digits2_bounds Wm) as BW. rewrite DW in BW.
  change (2 ^ (53 - 1)) with (2 ^ 52) in *.
  assert (Bp : 2 ^ 104 <= Zpos (Wm * m) < 2 ^ 106).
  { rewrite Pos2Z.inj_mul. change (2 ^ 104) with (2 ^ 52 * 2 ^ 52).
    change (2 ^ 106) with (2 ^ 53 * 2 ^ 53). nia. }
  assert (Dlo : 104 < Zpos (digits2_pos (Wm * m)))
    by (apply digits2_gt; lia).
  assert (Dhi : Zpos (digits2_pos (Wm * m)) <= 106)
    by (apply digits2_le; lia).
  destruct (binary_round_aux_value (Wm * m) (- a + e))
    as (mT & eT & m2 & -> & DT & Hlo & Hhi & HeT & Em); try lia.
  set (n := Zpos (digits2_pos (Wm * m)) - 53) in *.
  pose proof (leading_53 (Zpos (Wm * m)) (Zpos (digits2_pos (Wm * m))))
    as L53.
  fold n in L53.
  assert (B1 : 2 ^ 52 <= Zpos (Wm * m) / 2 ^ n < 2 ^ 53)
    by (apply L53; [lia | apply digits2_bounds]).
  apply (to_int_ge mT eT w 200); try lia.
  assert (E1 : Zpos mT * 2 ^ (eT + 200)
               = m2 * 2 ^ (e + n) * 2 ^ (200 - a)).
  { rewrite <- Em, <- !Z.mul_assoc, <- !Z.pow_add_r by lia.
    do 2 f_equal. lia. }
  assert (E2 : w * 2 ^ 200 = Zpos Wm * 2 ^ (200 - a)).
  { rewrite EWm, <- Z.mul_assoc, <- Z.pow_add_r by lia.
    do 2 f_equal. lia. }
  rewrite E1, E2.
  apply Z.mul_le_mono_nonneg_r; [apply Z.pow_nonneg; lia|].
  destruct (Z.eq_dec n 52) as [En|En].
  - rewrite En in *.
    assert (H1 : Zpos Wm <= Zpos (Wm * m) / 2 ^ 52).
    { apply Z.div_le_lower_bound; [lia|]. rewrite Pos2Z.inj_mul. nia. }
    assert (H2 : 1 <= 2 ^ (e + 52)).
    { change 1 with (2 ^ 0) at 1. apply Z.pow_le_mono_r; lia. }
    nia.
  - assert (En' : n = 53) by lia. rewrite En' in *.
    assert (H2 : 2 <= 2 ^ (e + 53)).
    { change 2 with (2 ^ 1) at 1. apply Z.pow_le_mono_r; lia. }
    nia.
Qed.

Section UpscaleFacts.

Context {lib : ImagingLib} {rlib : ResampleLib}.

(** An image that [resize] returns is well formed, of the size asked for
    and in the mode of the source. *)
Lemma resize_shape (img img' : Image) (w h : Z) :
  resize img (w, h) = Returns img' ->
  width img' = w /\ height img' = h /\
  wf_image img' /\ mode img' = mode img.
Proof.
  unfold resize.
  destruct (negb (c_int w && c_int h)); [discriminate|].
  destruct (Z.ltb_spec w 1); [discriminate|].
  destruct (Z.ltb_spec h 1); [discriminate|].
  cbn [orb].
  destruct (negb (can_allocate (mode img) (w, h))); [discriminate|].
  intro E. injection E as <-.
  unfold height, wf_image. cbn [width rows mode].
  split; [reflexivity|]. split; [|split; [|reflexivity]].
  - rewrite len_map, len_zrange. lia.
  - apply Forall_map. apply Forall_forall. intros y _.
    rewrite len_map, len_zrange. lia.
Qed.

(** [resize] to a size of positive width and height returns exactly when
    both are C [int]s and the storage can hold the image. *)
Lemma resize_returns_iff (img : Image) (w h : Z) :
  1 <= w -> 1 <= h ->
  (exists img', resize img (w, h) = Returns img')
  <-> (w <= INT_MAX /\ h <= INT_MAX) /\ can_allocate (mode img) (w, h) = true.
Proof.
  intros Hw Hh. unfold resize, c_int.
  assert (HI : INT_MAX = 2147483647) by reflexivity.
  destruct (Z.leb_spec (- INT_MAX - 1) w); [|lia].
  destruct (Z.leb_spec (- INT_MAX - 1) h); [|lia].
  destruct (Z.ltb_spec w 1); [lia|]. destruct (Z.ltb_spec h 1); [lia|].
  destruct (Z.leb_spec w INT_MAX), (Z.leb_spec h INT_MAX);
    cbn [andb negb orb];
    try (split; [intros [img' E]; discriminate | intros [[? ?] _]; lia]).
  destruct (can_allocate (mode img) (w, h)); cbn [negb].
  - split; [intros _; auto | intros _; eexists; reflexivity].
  - split; [intros [img' E]; discriminate | intros [_ E]; discriminate].
Qed.

(** Below [min_height], [upscale] is [resize] at the scaled size. *)
Lemma upscale_resizes (img : Image) (min_height : Z) :
  height img < min_height ->
  upscale img min_height
  = and_then (scaled_size (width img) (height img) min_height) (resize img).
Proof.
  intro Hlt. unfold upscale, size, scaled_size.
  destruct (Z.geb_spec (height img) min_height); [lia|].
  destruct (PyFloat.truediv min_height (height img)) as [scale|];
    cbn [and_then]; [|reflexivity].
  destruct (PyFloat.int_mul (width img) scale) as [ws|];
    cbn [and_then]; [|reflexivity].
  destruct (PyFloat.to_int ws) as [w'|]; cbn [and_then]; [|reflexivity].
  destruct (PyFloat.int_mul (height img) scale) as [hs|];
    cbn [and_then]; [|reflexivity].
  destruct (PyFloat.to_int hs) as [h'|]; cbn [and_then]; reflexivity.
Qed.

End UpscaleFacts.

(** The height of the scaled size is the scaled height. *)
Lemma scaled_size_height (w h min_height w' h' : Z) :
  scaled_size w h min_height = Returns (w', h') ->
  scaled_height h min_height = Returns h'.
Proof.
  unfold scaled_size, scaled_height.
  destruct (PyFloat.truediv min_height h) as [scale|];
    cbn [and_then]; [|discriminate].
  destruct (PyFloat.int_mul w scale) as [ws|];
    cbn [and_then]; [|discriminate].
  destruct (PyFloat.to_int ws) as [w1|]; cbn [and_then]; [|discriminate].
  destruct (PyFloat.int_mul h scale) as [hs|];
    cbn [and_then]; [|discriminate].
  destruct (PyFloat.to_int hs) as [h1|]; cbn [and_then]; [|discriminate].
  intro E. now injection E as _ ->.
Qed.

(** For a height from 1 to 1499 and a width from 1 to below [2^53] the
    arithmetic of [upscale(img, 1500)] raises nothing: the size asked for
    has height 1499 or 1500 and a width that is not smaller. *)
Lemma scaled_size_1500 (w h : Z) :
  1 <= h < 1500 -> 1 <= w < 2 ^ 53 ->
  exists w' h',
    scaled_size w h 1500 = Returns (w', h') /\
    (h' = 1499 \/ h' = 1500) /\ w <= w'.
Proof.
  intros Hh Hw. unfold scaled_size.
  pose proof (scale_1500_table h Hh) as Ht.
  unfold scale_1500_ok in Ht.
  destruct (PyFloat.truediv 1500 h) as [[| | |[] m e]|];
    try discriminate.
  cbn [and_then].
  apply andb_prop in Ht. destruct Ht as [Ht Hh'].
  apply andb_prop in Ht. destruct Ht as [Ht He2].
  apply andb_prop in Ht. destruct Ht as [Dm He1].
  apply Z.eqb_eq in Dm. apply Z.leb_le in He1, He2.
  destruct (int_mul_to_int_ge w m e Hw Dm (conj He1 He2))
    as (w' & Ew & Hw').
  destruct (PyFloat.int_mul w (S754_finite false m e))
    as [ws|]; [|discriminate].
  cbn [and_then] in Ew |- *. rewrite Ew. cbn [and_then].
  destruct (PyFloat.int_mul h (S754_finite false m e))
    as [hs|]; [|discriminate].
  cbn [and_then] in Hh' |- *.
  destruct (PyFloat.to_int hs) as [h'|]; [|discriminate].
  cbn [and_then].
  exists w', h'. split; [reflexivity|]. split; [|exact Hw'].
  apply orb_prop in Hh'. destruct Hh' as [E|E]; apply Z.eqb_eq in E; auto.
Qed.

(** X14. On an image of height from 1 to 1499 and width from 1 to
    [INT_MAX], the arithmetic of [upscale(img, 1500)] (the call
    [preprocess_page] makes) raises nothing, and the call is
    [img.resize] at a size whose height is 1499 or 1500 and whose width
    is at least that of the image.  It returns exactly when that width is
    a C [int] and the storage can hold the image; what it returns is a
    well-formed image of that size in the same mode. *)
Theorem upscale_1500_size `{lib : ImagingLib} `{rlib : !ResampleLib}
    (img : Image) :
  1 <= height img < 1500 ->
  1 <= width img <= INT_MAX ->
  exists w' h',
    scaled_size (width img) (height img) 1500 = Returns (w', h') /\
    upscale img 1500 = resize img (w', h') /\
    (h' = 1499 \/ h' = 1500) /\
    width img <= w' /\
    ((exists img', upscale img 1500 = Returns img')
     <-> w' <= INT_MAX /\ can_allocate (mode img) (w', h') = true) /\
    (forall img',
        upscale img 1500 = Returns img' ->
        width img' = w' /\ height img' = h' /\
        wf_image img' /\ mode img' = mode img).
Proof.
  intros Hh Hw. assert (HI : INT_MAX = 2147483647) by reflexivity.
  destruct (scaled_size_1500 (width img) (height img))
    as (w' & h' & Es & Hh' & Hw'); [lia | lia |].
  assert (Eu : upscale img 1500 = resize img (w', h')).
  { rewrite upscale_resizes by lia. now rewrite Es. }
  exists w', h'. split; [exact Es|]. split; [exact Eu|].
  split; [exact Hh'|]. split; [exact Hw'|]. rewrite Eu. split.
  - rewrite resize_returns_iff by lia. split.
    + intros [[H1 _] H2]. now split.
    + intros [H1 H2]. split; [split; [exact H1 | lia] | exact H2].
  - intros img' E. now apply resize_shape.
Qed.

Lemma upscale_1500_size_witness :
  exists w' h',
    scaled_size (width page_band) (height page_band) 1500
    = Returns (w', h') /\
    @upscale gray_lib nearest_lib page_band 1500
    = @resize gray_lib nearest_lib page_band (w', h') /\
    (h' = 1499 \/ h' = 1500) /\
    width page_band <= w' /\
    ((exists img', @upscale gray_lib nearest_lib page_band 1500
                   = Returns img')
     <-> w' <= INT_MAX /\
         @can_allocate gray_lib nearest_lib (mode page_band) (w', h') = true)
    /\
    (forall img',
        @upscale gray_lib nearest_lib page_band 1500 = Returns img' ->
        width img' = w' /\ height img' = h' /\
        wf_image img' /\ mode img' = mode page_band).
Proof.
  apply (@upscale_1500_size gray_lib nearest_lib page_band).
  - vm_compute. split; [discriminate | reflexivity].
  - vm_compute. split; discriminate.
Defined.

(** X15. The height asked for can fall short of [min_height]: for an
    image of height 91, [upscale(img, 1500)] is [img.resize] at height
    1499, since [int(91 * (1500 / 91))] is 1499 in binary64; every image
    it returns has height 1499, and it returns one whenever the width
    asked for is a C [int] and the storage can hold the image. *)
Theorem upscale_1500_may_fall_short `{lib : ImagingLib} `{rlib : !ResampleLib}
    (img : Image) :
  height img = 91 ->
  1 <= width img <= INT_MAX ->
  scaled_height 91 1500 = Returns 1499 /\
  exists w',
    width img <= w' /\
    upscale img 1500 = resize img (w', 1499) /\
    (forall img',
        upscale img 1500 = Returns img' ->
        height img' = 1499 /\ height img' < 1500) /\
    (w' <= INT_MAX -> can_allocate (mode img) (w', 1499) = true ->
     exists img',
       upscale img 1500 = Returns img' /\ height img' = 1499).
Proof.
  intros Hh Hw. assert (HI : INT_MAX = 2147483647) by reflexivity.
  assert (E91 : scaled_height 91 1500 = Returns 1499)
    by (vm_compute; reflexivity).
  split; [exact E91|].
  destruct (scaled_size_1500 (width img) (height img))
    as (w' & h' & Es & _ & Hw'); [lia | lia |].
  pose proof (scaled_size_height _ _ _ _ _ Es) as Eh.
  rewrite Hh, E91 in Eh. injection Eh as <-.
  assert (Eu : upscale img 1500 = resize img (w', 1499)).
  { rewrite upscale_resizes by lia. now rewrite Es. }
  exists w'. split; [exact Hw'|]. split; [exact Eu|]. rewrite Eu. split.
  - intros img' E. apply resize_shape in E as (_ & -> & _). lia.
  - intros H1 H2.
    destruct (proj2 (resize_returns_iff img w' 1499 ltac:(lia) ltac:(lia)))
      as [img' E]; [split; [lia | exact H2]|].
    exists img'. split; [exact E|].
    now apply resize_shape in E as (_ & -> & _).
Qed.

Lemma upscale_1500_may_fall_short_witness :
  scaled_height 91 1500 = Returns 1499 /\
  exists w',
    width (gray_page (repeat [0; 255] 91) 2) <= w' /\
    @upscale gray_lib nearest_lib (gray_page (repeat [0; 255] 91) 2) 1500
    = @resize gray_lib nearest_lib (gray_page (repeat [0; 255] 91) 2)
        (w', 1499) /\
    (forall img',
        @upscale gray_lib nearest_lib (gray_page (repeat [0; 255] 91) 2) 1500
        = Returns img' ->
        height img' = 1499 /\ height img' < 1500) /\
    (w' <= INT_MAX ->
     @can_allocate gray_lib nearest_lib
       (mode (gray_page (repeat [0; 255] 91) 2)) (w', 1499) = true ->
     exists img',
       @upscale gray_lib nearest_lib (gray_page (repeat [0; 255] 91) 2) 1500
       = Returns img' /\ height img' = 1499).
Proof.
  apply (@upscale_1500_may_fall_short gray_lib nearest_lib
           (gray_page (repeat [0; 255] 91) 2)).
  - vm_compute. reflexivity.
  - vm_compute. split; discriminate.
Defined.
